(** * Panic-recovery middleware ([web/middleware/recovery.go])

    A shallow embedding of the three functions of the file,
    [isBrokenPipe], [dumpRequestSafe] and [RecoveryJSON], together with
    the parts of the Go standard library and of gin that they call, and
    the properties of the middleware proved over that embedding. *)

From Stdlib Require Import Ascii String ZArith Bool Lia.
From stdpp Require Import gmap strings list fin_maps sorting pretty.

Local Open Scope string_scope.

(** ** Text (packages [unicode/utf8], [unicode], [strings])

    Go strings are byte sequences; they are modelled by [string].  A
    rune is a [Z].  [strings.ToLower] and [strings.TrimSpace] read a
    string as UTF-8, rune by rune. *)

Module utf8.

Definition RuneError : Z := 65533.

Definition byte (c : ascii) : Z := Z.of_N (N_of_ascii c).
Definition chr (b : Z) : ascii := ascii_of_N (Z.to_N b).

(** A continuation byte, [0x80..0xBF]. *)
Definition cont (b : Z) : bool := (128 <=? b)%Z && (b <=? 191)%Z.

(** The length that a first byte announces (table [first]); [0] for a
    byte that starts no encoding: [0x80..0xC1] and [0xF5..0xFF]. *)
Definition size (b0 : Z) : nat :=
  if (b0 <? 128)%Z then 1
  else if (b0 <? 194)%Z then 0
  else if (b0 <? 224)%Z then 2
  else if (b0 <? 240)%Z then 3
  else if (b0 <? 245)%Z then 4
  else 0.

(** The range of the second byte (table [acceptRanges]): narrower after
    [0xE0], [0xED], [0xF0] and [0xF4], which excludes over-long forms,
    surrogates and values above [U+10FFFF]. *)
Definition accepts (b0 b1 : Z) : bool :=
  let lo := if (b0 =? 224)%Z then 160%Z
            else if (b0 =? 240)%Z then 144%Z else 128%Z in
  let hi := if (b0 =? 237)%Z then 159%Z
            else if (b0 =? 244)%Z then 143%Z else 191%Z in
  (lo <=? b1)%Z && (b1 <=? hi)%Z.

Definition low6 (b : Z) : Z := Z.land b 63.

(** [utf8.DecodeRuneInString]: the first rune of [s] and its width in
    bytes; [(RuneError, 0)] for the empty string and [(RuneError, 1)]
    for a byte that starts no valid encoding. *)
Definition DecodeRuneInString (s : string) : Z * nat :=
  match s with
  | EmptyString => (RuneError, 0%nat)
  | String c0 s1 =>
      let b0 := byte c0 in
      match size b0 with
      | 1%nat => (b0, 1%nat)
      | 2%nat =>
          match s1 with
          | String c1 _ =>
              if accepts b0 (byte c1)
              then (Z.lor (Z.shiftl (Z.land b0 31) 6) (low6 (byte c1)), 2%nat)
              else (RuneError, 1%nat)
          | _ => (RuneError, 1%nat)
          end
      | 3%nat =>
          match s1 with
          | String c1 (String c2 _) =>
              if accepts b0 (byte c1) && cont (byte c2)
              then (Z.lor (Z.shiftl (Z.land b0 15) 12)
                      (Z.lor (Z.shiftl (low6 (byte c1)) 6) (low6 (byte c2))),
                    3%nat)
              else (RuneError, 1%nat)
          | _ => (RuneError, 1%nat)
          end
      | 4%nat =>
          match s1 with
          | String c1 (String c2 (String c3 _)) =>
              if accepts b0 (byte c1) && cont (byte c2) && cont (byte c3)
              then (Z.lor (Z.shiftl (Z.land b0 7) 18)
                      (Z.lor (Z.shiftl (low6 (byte c1)) 12)
                         (Z.lor (Z.shiftl (low6 (byte c2)) 6)
                            (low6 (byte c3)))),
                    4%nat)
              else (RuneError, 1%nat)
          | _ => (RuneError, 1%nat)
          end
      | _ => (RuneError, 1%nat)
      end
  end.

(** [utf8.RuneStart]: the byte is not a continuation byte. *)
Definition RuneStart (b : Z) : bool := negb (cont b).

(** The bytes of a text from the last to the first, and the text of
    such a list of bytes. *)
Definition backwards (s : string) : list ascii := rev (list_ascii_of_string s).
Definition forwards (rs : list ascii) : string := string_of_list_ascii (rev rs).

(** The loop of [DecodeLastRuneInString] that looks for the start of
    the last rune, on the bytes from the last to the first: it tests
    the three bytes before the last one, and stops at the first that
    can start a rune.  The result is the number of bytes from the place
    where it stops (the first byte of the text, when the text is over)
    to the end. *)
Definition lastRuneSpan (rs : list ascii) : nat :=
  match rs with
  | _ :: c2 :: rest2 =>
      if RuneStart (byte c2) then 2
      else match rest2 with
           | c3 :: rest3 =>
               if RuneStart (byte c3) then 3
               else match rest3 with
                    | c4 :: rest4 =>
                        if RuneStart (byte c4) then 4
                        else match rest4 with [] => 4 | _ => 5 end
                    | [] => 3
                    end
           | [] => 2
           end
  | _ => 1
  end%nat.

(** [utf8.DecodeLastRuneInString]: the last rune of [s] and its width;
    [(RuneError, 1)] when the bytes from the start that the loop found
    to the end are not one valid encoding. *)
Definition DecodeLastRuneInString (s : string) : Z * nat :=
  match backwards s with
  | [] => (RuneError, 0%nat)
  | c1 :: _ =>
      if (byte c1 <? 128)%Z then (byte c1, 1%nat)
      else
        let span := lastRuneSpan (backwards s) in
        let '(r, size) := DecodeRuneInString (forwards (take span (backwards s))) in
        if (size =? span)%nat then (r, size) else (RuneError, 1%nat)
  end.

Definition tail6 (r : Z) (k : Z) : ascii :=
  chr (Z.lor 128 (low6 (Z.shiftr r k))).

(** [utf8.AppendRune]: the encoding of a rune; a surrogate or a value
    out of range is written as [RuneError]. *)
Definition EncodeRune (r : Z) : string :=
  if (0 <=? r)%Z && (r <=? 127)%Z then String (chr r) EmptyString
  else if (0 <=? r)%Z && (r <=? 2047)%Z
  then String (chr (Z.lor 192 (Z.shiftr r 6))) (String (tail6 r 0) EmptyString)
  else
    let r := if (r <? 0)%Z || (1114111 <? r)%Z
                || ((55296 <=? r)%Z && (r <=? 57343)%Z)
             then RuneError else r in
    if (r <=? 65535)%Z
    then String (chr (Z.lor 224 (Z.shiftr r 12)))
           (String (tail6 r 6) (String (tail6 r 0) EmptyString))
    else String (chr (Z.lor 240 (Z.shiftr r 18)))
           (String (tail6 r 12)
              (String (tail6 r 6) (String (tail6 r 0) EmptyString))).

End utf8.

Module unicode.

Local Open Scope Z_scope.

(** The lower-case mappings outside ASCII (the [LowerCase] deltas of
    [unicode.CaseRanges]), as [(lo, hi, step, delta)]: a rune [r] with
    [lo <= r <= hi] and [r - lo] a multiple of [step] is mapped to
    [r + delta]. *)
Definition lowerTable : list (Z * Z * Z * Z) :=
  [(192, 214, 1, 32); (216, 222, 1, 32); (256, 302, 2, 1);
   (304, 304, 1, (-199)); (306, 310, 2, 1); (313, 327, 2, 1);
   (330, 374, 2, 1); (376, 376, 1, (-121)); (377, 381, 2, 1);
   (385, 385, 1, 210); (386, 388, 2, 1); (390, 390, 1, 206);
   (391, 391, 1, 1); (393, 394, 1, 205); (395, 395, 1, 1); (398, 398, 1, 79);
   (399, 399, 1, 202); (400, 400, 1, 203); (401, 401, 1, 1);
   (403, 403, 1, 205); (404, 404, 1, 207); (406, 406, 1, 211);
   (407, 407, 1, 209); (408, 408, 1, 1); (412, 412, 1, 211);
   (413, 413, 1, 213); (415, 415, 1, 214); (416, 420, 2, 1);
   (422, 422, 1, 218); (423, 423, 1, 1); (425, 425, 1, 218);
   (428, 428, 1, 1); (430, 430, 1, 218); (431, 431, 1, 1);
   (433, 434, 1, 217); (435, 437, 2, 1); (439, 439, 1, 219);
   (440, 440, 1, 1); (444, 444, 1, 1); (452, 452, 1, 2); (453, 453, 1, 1);
   (455, 455, 1, 2); (456, 456, 1, 1); (458, 458, 1, 2); (459, 475, 2, 1);
   (478, 494, 2, 1); (497, 497, 1, 2); (498, 500, 2, 1);
   (502, 502, 1, (-97)); (503, 503, 1, (-56)); (504, 542, 2, 1);
   (544, 544, 1, (-130)); (546, 562, 2, 1); (570, 570, 1, 10795);
   (571, 571, 1, 1); (573, 573, 1, (-163)); (574, 574, 1, 10792);
   (577, 577, 1, 1); (579, 579, 1, (-195)); (580, 580, 1, 69);
   (581, 581, 1, 71); (582, 590, 2, 1); (880, 882, 2, 1); (886, 886, 1, 1);
   (895, 895, 1, 116); (902, 902, 1, 38); (904, 906, 1, 37);
   (908, 908, 1, 64); (910, 911, 1, 63); (913, 929, 1, 32);
   (931, 939, 1, 32); (975, 975, 1, 8); (984, 1006, 2, 1);
   (1012, 1012, 1, (-60)); (1015, 1015, 1, 1); (1017, 1017, 1, (-7));
   (1018, 1018, 1, 1); (1021, 1023, 1, (-130)); (1024, 1039, 1, 80);
   (1040, 1071, 1, 32); (1120, 1152, 2, 1); (1162, 1214, 2, 1);
   (1216, 1216, 1, 15); (1217, 1229, 2, 1); (1232, 1326, 2, 1);
   (1329, 1366, 1, 48); (4256, 4293, 1, 7264); (4295, 4295, 1, 7264);
   (4301, 4301, 1, 7264); (5024, 5103, 1, 38864); (5104, 5109, 1, 8);
   (7312, 7354, 1, (-3008)); (7357, 7359, 1, (-3008)); (7680, 7828, 2, 1);
   (7838, 7838, 1, (-7615)); (7840, 7934, 2, 1); (7944, 7951, 1, (-8));
   (7960, 7965, 1, (-8)); (7976, 7983, 1, (-8)); (7992, 7999, 1, (-8));
   (8008, 8013, 1, (-8)); (8025, 8031, 2, (-8)); (8040, 8047, 1, (-8));
   (8072, 8079, 1, (-8)); (8088, 8095, 1, (-8)); (8104, 8111, 1, (-8));
   (8120, 8121, 1, (-8)); (8122, 8123, 1, (-74)); (8124, 8124, 1, (-9));
   (8136, 8139, 1, (-86)); (8140, 8140, 1, (-9)); (8152, 8153, 1, (-8));
   (8154, 8155, 1, (-100)); (8168, 8169, 1, (-8)); (8170, 8171, 1, (-112));
   (8172, 8172, 1, (-7)); (8184, 8185, 1, (-128)); (8186, 8187, 1, (-126));
   (8188, 8188, 1, (-9)); (8486, 8486, 1, (-7517)); (8490, 8490, 1, (-8383));
   (8491, 8491, 1, (-8262)); (8498, 8498, 1, 28); (8544, 8559, 1, 16);
   (8579, 8579, 1, 1); (9398, 9423, 1, 26); (11264, 11311, 1, 48);
   (11360, 11360, 1, 1); (11362, 11362, 1, (-10743));
   (11363, 11363, 1, (-3814)); (11364, 11364, 1, (-10727));
   (11367, 11371, 2, 1); (11373, 11373, 1, (-10780));
   (11374, 11374, 1, (-10749)); (11375, 11375, 1, (-10783));
   (11376, 11376, 1, (-10782)); (11378, 11378, 1, 1); (11381, 11381, 1, 1);
   (11390, 11391, 1, (-10815)); (11392, 11490, 2, 1); (11499, 11501, 2, 1);
   (11506, 11506, 1, 1); (42560, 42604, 2, 1); (42624, 42650, 2, 1);
   (42786, 42798, 2, 1); (42802, 42862, 2, 1); (42873, 42875, 2, 1);
   (42877, 42877, 1, (-35332)); (42878, 42886, 2, 1); (42891, 42891, 1, 1);
   (42893, 42893, 1, (-42280)); (42896, 42898, 2, 1); (42902, 42920, 2, 1);
   (42922, 42922, 1, (-42308)); (42923, 42923, 1, (-42319));
   (42924, 42924, 1, (-42315)); (42925, 42925, 1, (-42305));
   (42926, 42926, 1, (-42308)); (42928, 42928, 1, (-42258));
   (42929, 42929, 1, (-42282)); (42930, 42930, 1, (-42261));
   (42931, 42931, 1, 928); (42932, 42946, 2, 1); (42948, 42948, 1, (-48));
   (42949, 42949, 1, (-42307)); (42950, 42950, 1, (-35384));
   (42951, 42953, 2, 1); (42960, 42960, 1, 1); (42966, 42968, 2, 1);
   (42997, 42997, 1, 1); (65313, 65338, 1, 32); (66560, 66599, 1, 40);
   (66736, 66771, 1, 40); (66928, 66938, 1, 39); (66940, 66954, 1, 39);
   (66956, 66962, 1, 39); (66964, 66965, 1, 39); (68736, 68786, 1, 64);
   (71840, 71871, 1, 32); (93760, 93791, 1, 32); (125184, 125217, 1, 34)]
.

Fixpoint lowerIn (table : list (Z * Z * Z * Z)) (r : Z) : Z :=
  match table with
  | [] => r
  | (lo, hi, step, delta) :: rest =>
      if (lo <=? r)%Z && (r <=? hi)%Z && ((r - lo) mod step =? 0)%Z
      then (r + delta)%Z
      else lowerIn rest r
  end.

Definition ToLower (r : Z) : Z :=
  if (r <=? 127)%Z
  then if (65 <=? r)%Z && (r <=? 90)%Z then (r + 32)%Z else r
  else lowerIn lowerTable r.

(** [unicode.IsSpace]: the runes with the property [White_Space]. *)
Definition IsSpace (r : Z) : bool :=
  if (r <=? 255)%Z
  then ((9 <=? r)%Z && (r <=? 13)%Z) || (r =? 32)%Z
       || (r =? 133)%Z || (r =? 160)%Z
  else (r =? 5760)%Z || ((8192 <=? r)%Z && (r <=? 8202)%Z)
       || (r =? 8232)%Z || (r =? 8233)%Z || (r =? 8239)%Z
       || (r =? 8287)%Z || (r =? 12288)%Z.

End unicode.

Module strings.

Definition lowerByte (c : ascii) : ascii :=
  let n := nat_of_ascii c in
  if (65 <=? n)%nat && (n <=? 90)%nat then ascii_of_nat (n + 32) else c.

Fixpoint isASCII (s : string) : bool :=
  match s with
  | EmptyString => true
  | String c s' => (utf8.byte c <? 128)%Z && isASCII s'
  end.

Fixpoint lowerASCII (s : string) : string :=
  match s with
  | EmptyString => EmptyString
  | String c s' => String (lowerByte c) (lowerASCII s')
  end.

(** [strings.Map]: the runes of [s] mapped one by one and encoded
    again.  [mapFrom mapping skip s] is the loop at a position [skip]
    bytes before the next rune: the bytes of a rune already decoded are
    passed over.  A byte that starts no valid encoding is decoded as
    [RuneError], so that it comes out as the three bytes of [U+FFFD]. *)
Fixpoint mapFrom (mapping : Z -> Z) (skip : nat) (s : string) : string :=
  match s with
  | EmptyString => EmptyString
  | String _ s' =>
      match skip with
      | S k => mapFrom mapping k s'
      | O =>
          let '(r, w) := utf8.DecodeRuneInString s in
          utf8.EncodeRune (mapping r) ++ mapFrom mapping (w - 1) s'
      end
  end.

Definition Map (mapping : Z -> Z) (s : string) : string := mapFrom mapping 0 s.

(** [strings.ToLower]: ASCII text is lowered byte by byte, any other
    text rune by rune with [unicode.ToLower]. *)
Definition ToLower (s : string) : string :=
  if isASCII s then lowerASCII s else Map unicode.ToLower s.

Fixpoint HasPrefix (s prefix : string) {struct prefix} : bool :=
  match prefix, s with
  | EmptyString, _ => true
  | String _ _, EmptyString => false
  | String p prefix', String c s' =>
      if Ascii.eqb c p then HasPrefix s' prefix' else false
  end.

Fixpoint Contains (s substr : string) : bool :=
  HasPrefix s substr ||
  match s with
  | EmptyString => false
  | String _ s' => Contains s' substr
  end.

(** The ASCII white space: tab, line feed, vertical tab, form feed,
    carriage return, space. *)
Definition isSpace (c : ascii) : bool :=
  let n := nat_of_ascii c in
  ((9 <=? n)%nat && (n <=? 13)%nat) || (n =? 32)%nat.

(** [strings.TrimLeftFunc s unicode.IsSpace]: the text from its first
    rune that is not white space. *)
Fixpoint trimLeftFrom (skip : nat) (s : string) : string :=
  match s with
  | EmptyString => EmptyString
  | String _ s' =>
      match skip with
      | S k => trimLeftFrom k s'
      | O =>
          let '(r, w) := utf8.DecodeRuneInString s in
          if unicode.IsSpace r then trimLeftFrom (w - 1) s' else s
      end
  end.

Definition TrimLeft (s : string) : string := trimLeftFrom 0 s.

(** The slices [s[0:i]] and [s[i:]]. *)
Definition upTo (i : nat) (s : string) : string := String.substring 0 i s.
Definition from (i : nat) (s : string) : string :=
  String.substring i (String.length s - i) s.

(** [lastIndexFunc s unicode.IsSpace false], from the index [i]: the
    index of the last rune that is not white space, runes being decoded
    backwards; [None] is the result -1.  [fuel] bounds the number of
    turns of the loop; the length of [s] is enough. *)
Fixpoint lastIndexFunc (fuel : nat) (s : string) (i : nat) : option nat :=
  match fuel with
  | O => None
  | S fuel' =>
      if (i =? 0)%nat then None
      else
        let '(r, size) := utf8.DecodeLastRuneInString (upTo i s) in
        if unicode.IsSpace r then lastIndexFunc fuel' s (i - size)
        else Some (i - size)%nat
  end.

(** [strings.TrimRightFunc s unicode.IsSpace]: the text up to the end
    of its last rune that is not white space; the width of that rune is
    decoded forwards. *)
Definition TrimRight (s : string) : string :=
  match lastIndexFunc (String.length s) s (String.length s) with
  | Some i =>
      match String.get i s with
      | Some c =>
          if (128 <=? utf8.byte c)%Z
          then upTo (i + (utf8.DecodeRuneInString (from i s)).2) s
          else upTo (i + 1) s
      | None => upTo (i + 1) s
      end
  | None => EmptyString
  end.

(** [strings.TrimSpace] (its loop over ASCII text is a short cut to the
    same result). *)
Definition TrimSpace (s : string) : string := TrimRight (TrimLeft s).

Fixpoint Join (elems : list string) (sep : string) : string :=
  match elems with
  | [] => ""
  | [e] => e
  | e :: rest => e ++ sep ++ Join rest sep
  end.

End strings.

(** ** Errors (packages [errors], [fmt], [net])

    An [error] is a non-nil value of Go's [error] interface; a possibly
    nil one is an [option error].  The constructors are the shapes that
    [errors.As] and the [Error] methods tell apart:
    - [errorString s]: a leaf with message [s]: no [Unwrap] method, or
      one that returns nil ([errors.New], [fmt.Errorf] without [%w]);
    - [wrapError msg err]: the [Error] method returns [msg], and
      [Unwrap() error] gives [err] ([fmt.Errorf] with one [%w], which
      stores its message when it is built);
    - [wrapErrors msg errs]: the same with [Unwrap() []error]
      ([fmt.Errorf] with several [%w]);
    - [joinError errs]: the result of [errors.Join], whose [Error]
      method calls the [Error] method of each of [errs];
    - [causeError prefix err]: an error that prints [prefix] and then
      calls the [Error] method of its cause without a nil check, and
      whose [Unwrap] returns the cause: a [fs.PathError] (the prefix is
      the operation, a space, the path, a colon and a space), an
      [os.SyscallError];
    - [OpError ne]: a value of the pointer type of [net.OpError]; the
      pointer can be nil.
    An error type with an [As] method of its own is outside the model. *)

(** A pointer to a [net.OpError]: the address of a struct with the
    fields that its [Error] method reads ([Source] and [Addr] as the
    text that their [String] method returns, when they are not nil),
    or nil. *)
Inductive OpErrorOf (E : Type) : Type :=
| mkOpError (Op Net : string) (Source Addr : option string) (Err : option E)
| nilOpError.
Arguments mkOpError {E}.
Arguments nilOpError {E}.

Scheme All for list.
Scheme All for option.
Scheme All for OpErrorOf.

Inductive error : Type :=
| errorString (s : string)
| wrapError (msg : string) (err : error)
| wrapErrors (msg : string) (errs : list error)
| joinError (errs : list error)
| causeError (prefix : string) (err : option error)
| OpError (ne : OpErrorOf error).

Abbreviation net_OpError := (OpErrorOf error).

(** The text that the [Error] method of [net.OpError] puts before the
    cause. *)
Definition OpError_prefix (Op Net : string) (Source Addr : option string) : string :=
  let s := Op in
  let s := if String.eqb Net "" then s else s ++ " " ++ Net in
  let s := match Source with Some src => s ++ " " ++ src | None => s end in
  let s := match Addr with
           | Some a =>
               (match Source with Some _ => s ++ "->" | None => s ++ " " end) ++ a
           | None => s
           end in
  s ++ ": ".

(** [err.Error()].  [None] stands for a run-time panic, the
    dereference of nil: the method of [net.OpError] answers for the nil
    pointer, and then calls [e.Err.Error()] without a nil check; a
    [causeError] does the same; [errors.Join] calls the method of each
    error that it joins (it never holds an empty list). *)
Fixpoint Error (e : error) : option string :=
  match e with
  | errorString s => Some s
  | wrapError msg _ => Some msg
  | wrapErrors msg _ => Some msg
  | joinError errs =>
      (fix join (errs : list error) : option string :=
         match errs with
         | [] => Some ""
         | e :: errs' =>
             match errs' with
             | [] => Error e
             | _ =>
                 match Error e, join errs' with
                 | Some m, Some ms => Some (m ++ String (ascii_of_nat 10) ms)
                 | _, _ => None
                 end
             end
         end) errs
  | causeError prefix err =>
      match err with
      | Some cause =>
          match Error cause with
          | Some m => Some (prefix ++ m)
          | None => None
          end
      | None => None
      end
  | OpError ne =>
      match ne with
      | nilOpError => Some "<nil>"
      | mkOpError op net src addr (Some cause) =>
          match Error cause with
          | Some m => Some (OpError_prefix op net src addr ++ m)
          | None => None
          end
      | mkOpError _ _ _ _ None => None
      end
  end.

(** [errors.As(err, &ne)] for [ne] a pointer to a [net.OpError]: the
    first value of that type met while unwrapping [err], depth first;
    it can be the nil pointer. *)
Fixpoint errors_As (err : error) : option net_OpError :=
  match err with
  | errorString _ => None
  | wrapError _ e => errors_As e
  | wrapErrors _ es =>
      (fix first (es : list error) : option net_OpError :=
         match es with
         | [] => None
         | e :: es' =>
             match errors_As e with
             | Some ne => Some ne
             | None => first es'
             end
         end) es
  | joinError es =>
      (fix first (es : list error) : option net_OpError :=
         match es with
         | [] => None
         | e :: es' =>
             match errors_As e with
             | Some ne => Some ne
             | None => first es'
             end
         end) es
  | causeError _ err =>
      match err with
      | Some e => errors_As e
      | None => None
      end
  | OpError ne => Some ne
  end.

(** ** [isBrokenPipe] *)

Definition brokenPipeText (s : string) : bool :=
  strings.Contains s "broken pipe" ||
  strings.Contains s "connection reset by peer".

(** [None] is a panic of the call: the field access [ne.Err] on a nil
    pointer, or a panic of an [Error] method. *)
Definition isBrokenPipe (err : option error) : option bool :=
  match err with
  | None => Some false
  | Some err =>
      let top :=
        s ← strings.ToLower <$> Error err;
        Some (brokenPipeText s) in
      match errors_As err with
      | Some nilOpError => None
      | Some (mkOpError _ _ _ _ (Some cause)) =>
          s ← strings.ToLower <$> Error cause;
          Some (brokenPipeText s)
      | Some (mkOpError _ _ _ _ None) => top
      | None => top
      end
  end.


(** ** MIME header keys (package [net/textproto]) *)

Module textproto.

Definition isLowerAlpha (c : ascii) : bool :=
  let n := nat_of_ascii c in (97 <=? n)%nat && (n <=? 122)%nat.
Definition isUpperAlpha (c : ascii) : bool :=
  let n := nat_of_ascii c in (65 <=? n)%nat && (n <=? 90)%nat.
Definition isDigit (c : ascii) : bool :=
  let n := nat_of_ascii c in (48 <=? n)%nat && (n <=? 57)%nat.

Fixpoint inString (c : ascii) (s : string) : bool :=
  match s with
  | EmptyString => false
  | String d s' => Ascii.eqb c d || inString c s'
  end.

(** The token characters of RFC 7230. *)
Definition validHeaderFieldByte (c : ascii) : bool :=
  isLowerAlpha c || isUpperAlpha c || isDigit c || inString c "!#$%&'*+-.^_`|~".

Fixpoint allValid (s : string) : bool :=
  match s with
  | EmptyString => true
  | String c s' => validHeaderFieldByte c && allValid s'
  end.

(** First letter and every letter after a dash in upper case, the other
    letters in lower case. *)
Fixpoint canonicalize (upper : bool) (s : string) : string :=
  match s with
  | EmptyString => EmptyString
  | String c s' =>
      let c' :=
        if upper && isLowerAlpha c then ascii_of_nat (nat_of_ascii c - 32)
        else if negb upper && isUpperAlpha c then ascii_of_nat (nat_of_ascii c + 32)
        else c in
      String c' (canonicalize (Ascii.eqb c' "-") s')
  end.

(** A key with a byte that is not a token character is returned as it
    is; any other key is canonicalized. *)
Definition CanonicalMIMEHeaderKey (s : string) : string :=
  if allValid s then canonicalize true s else s.

End textproto.

(** ** Headers (package [net/http])

    [http.Header] is [map[string][]string].  The contents of a header
    map are a [gmap]; the map itself is a reference, see [World]. *)

Abbreviation HeaderMap := (gmap string (list string)).

(** [textproto.MIMEHeader.Get] and [Set], to which [http.Header]
    delegates. *)
Definition MIMEHeader_Get (h : HeaderMap) (key : string) : string :=
  match h !! textproto.CanonicalMIMEHeaderKey key with
  | Some (v :: _) => v
  | _ => ""
  end.

Definition MIMEHeader_Set (h : HeaderMap) (key value : string) : HeaderMap :=
  <[textproto.CanonicalMIMEHeaderKey key := [value]]> h.

(** [textproto.MIMEHeader.Add] *)
Definition MIMEHeader_Add (h : HeaderMap) (key value : string) : HeaderMap :=
  let key := textproto.CanonicalMIMEHeaderKey key in
  <[key := (default [] (h !! key) ++ [value])%list]> h.

(** The header map that the server builds from the header lines of a
    request, in the order of the lines: each name is put in canonical
    form and the value is appended to the values of that name. *)
Definition receivedHeaders (lines : list (string * string)) : HeaderMap :=
  foldl (fun h kv => MIMEHeader_Add h kv.1 kv.2) ∅ lines.

(** ** Requests and the state of a request in flight *)

Definition loc := positive.

(** What the middleware and the dump use of a [*url.URL]: the results
    of its methods [String] and [RequestURI], and its field [Host]. *)
Record url_URL := {
  URL_String : string;
  URL_RequestURI : string;
  URL_Host : string;
}.

(** [http.Request], with the fields that the middleware or
    [httputil.DumpRequest] read.  [Header] is a reference to a header
    map and [Body] a reference to a body stream: copying the struct
    copies the references. *)
Record Request := {
  Method : string;
  URL : url_URL;
  ProtoMajor : Z;
  ProtoMinor : Z;
  Header : loc;
  Body : option loc;
  TransferEncoding : list string;
  Host : string;
  RequestURI : string;
}.

(** A request body ([io.ReadCloser]): its bytes and how many of them
    have been read. *)
Record BodyStream := {
  body_data : string;
  body_read : nat;
}.

(** [gin.H] with string values. *)
Abbreviation gin_H := (gmap string string).

(** The response writer of gin ([responseWriter]): the status code, to
    be sent or sent already; whether the header has been sent
    ([Written()]); and the JSON objects written to the body since, in
    the order of the writes.  A write that fails, because the
    connection is gone, is outside the model. *)
Record ResponseWriter := {
  w_status : Z;
  w_written : bool;
  w_body : list gin_H;
}.

Inductive ErrorType := ErrorTypePrivate | ErrorTypePublic.

(** [gin.Error] *)
Record gin_Error := {
  gin_Err : error;
  gin_Type : ErrorType;
}.

(** [gin.Context]: the request, the position in the handler chain, the
    errors recorded on the context and the response writer. *)
Record Context := {
  Request_ : Request;
  index : Z;
  Errors : list gin_Error;
  Writer : ResponseWriter;
}.

(** An argument of a formatted log call. *)
Inductive fmtArg :=
| ArgDuration (nanoseconds : Z)
| ArgString (s : string)
| ArgBool (b : bool)
| ArgError (e : error)
| ArgBytes (b : string).

(** One call of [log.Printf]: one log line. *)
Record LogLine := {
  log_format : string;
  log_args : list fmtArg;
}.

(** Everything a handler can read or change: the store of header maps,
    the store of request bodies, the clock (nanoseconds), the stack
    text that [debug.Stack] reports, the log, and the context [c] of
    the request. *)
Record World := {
  headers : gmap loc HeaderMap;
  bodies : gmap loc BodyStream;
  clock : Z;
  stack : string;
  logs : list LogLine;
  c : Context;
}.

Definition set_headers (f : gmap loc HeaderMap → gmap loc HeaderMap) (w : World) : World :=
  {| headers := f (headers w); bodies := bodies w; clock := clock w;
     stack := stack w; logs := logs w; c := c w |}.

Definition set_bodies (f : gmap loc BodyStream → gmap loc BodyStream) (w : World) : World :=
  {| headers := headers w; bodies := f (bodies w); clock := clock w;
     stack := stack w; logs := logs w; c := c w |}.

Definition set_logs (f : list LogLine → list LogLine) (w : World) : World :=
  {| headers := headers w; bodies := bodies w; clock := clock w;
     stack := stack w; logs := f (logs w); c := c w |}.

Definition set_c (f : Context → Context) (w : World) : World :=
  {| headers := headers w; bodies := bodies w; clock := clock w;
     stack := stack w; logs := logs w; c := f (c w) |}.

(** *** The state monad of the code that cannot panic *)

Definition M (A : Type) : Type := World → A * World.

Definition ret {A} (a : A) : M A := fun w => (a, w).

Definition bind {A B} (m : M A) (k : A → M B) : M B :=
  fun w => let '(a, w') := m w in k a w'.

Notation "x <- m ;; k" := (bind m (fun x => k))
  (at level 20, m at level 99, k at level 200, only parsing).
Notation "m ;; k" := (bind m (fun _ => k))
  (at level 100, k at level 200, only parsing, right associativity).

Fixpoint forEach {A} (l : list A) (body : A → M unit) : M unit :=
  match l with
  | [] => ret tt
  | x :: l' => body x ;; forEach l' body
  end.

(** *** Header maps in the store

    A reference that the store does not bind is the nil map: reading it
    gives no value and cloning it gives nil again. *)

Definition headerAt (w : World) (h : loc) : HeaderMap :=
  default ∅ (headers w !! h).

Definition Header_Clone (h : loc) : M loc := fun w =>
  match headers w !! h with
  | None => (h, w)
  | Some m =>
      let h2 := fresh (dom (headers w)) in
      (h2, set_headers <[h2 := m]> w)
  end.

Definition Header_Get (h : loc) (key : string) : M string := fun w =>
  (MIMEHeader_Get (headerAt w h) key, w).

(** An assignment to an entry of the nil map panics in Go; the
    middleware makes none (see [forEach_redact_nil]). *)
Definition Header_Set (h : loc) (key value : string) : M unit := fun w =>
  (tt, set_headers (alter (fun m => MIMEHeader_Set m key value) h) w).

(** ** Formatting (package [fmt]) *)

Definition LF : string := String (ascii_of_nat 10) EmptyString.
Definition CRLF : string := String (ascii_of_nat 13) LF.

(** The verb [%v] (and [%s]) on an error prints [err.Error()]; [fmt]
    recovers a panic of the method and prints a marker instead. *)
Definition fmt_v (e : error) : string :=
  match Error e with
  | Some s => s
  | None => "%!v(PANIC=Error method: runtime error: invalid memory address or nil pointer dereference)"
  end.

(** A value given to [panic]: an error, or any other value, of which
    the middleware only uses the text that [%v] prints. *)
Inductive any :=
| any_error (e : error)
| any_other (text : string).

(** ** [httputil.DumpRequest]

    The model of the library function: the request line, the [Host]
    line and the headers in wire format; the body is read only when
    [body] is true. *)

Module httputil.

Definition valueOrDefault (value def : string) : string :=
  if String.eqb value "" then def else value.

Definition reqWriteExcludeHeaderDump : list string :=
  ["Host"; "Transfer-Encoding"; "Trailer"].

(** [httpguts.ValidHeaderFieldName] *)
Definition ValidHeaderFieldName (key : string) : bool :=
  negb (String.eqb key "") && textproto.allValid key.

(** [headerNewlineToSpace]: line feeds and carriage returns become
    spaces. *)
Fixpoint headerNewlineToSpace (v : string) : string :=
  match v with
  | EmptyString => EmptyString
  | String ch v' =>
      let n := nat_of_ascii ch in
      String (if (n =? 10)%nat || (n =? 13)%nat then " "%char else ch)
             (headerNewlineToSpace v')
  end.

Definition isASCIISpace (ch : ascii) : bool :=
  let n := nat_of_ascii ch in
  (n =? 32)%nat || (n =? 9)%nat || (n =? 10)%nat || (n =? 13)%nat.

Fixpoint trimLeft (s : string) : string :=
  match s with
  | EmptyString => EmptyString
  | String ch s' => if isASCIISpace ch then trimLeft s' else s
  end.

Fixpoint trimRight (s : string) : string :=
  match s with
  | EmptyString => EmptyString
  | String ch s' =>
      match trimRight s' with
      | EmptyString => if isASCIISpace ch then EmptyString else String ch EmptyString
      | t => String ch t
      end
  end.

(** [textproto.TrimString] *)
Definition TrimString (s : string) : string := trimRight (trimLeft s).

Definition keyLe (a b : string * list string) : Prop :=
  Is_true (String.leb a.1 b.1).

#[local] Instance keyLe_dec a b : Decision (keyLe a b).
Proof. unfold keyLe. apply _. Defined.

(** [Header.sortedKeyValues]: the entries whose key is not excluded,
    by increasing key. *)
Definition sortedKeyValues (h : HeaderMap) (exclude : list string)
  : list (string * list string) :=
  merge_sort keyLe
    (filter (fun kv => kv.1 ∉ exclude) (map_to_list h)).

Definition writeValues (key : string) (values : list string) : string :=
  foldr (fun v out =>
           key ++ ": " ++ TrimString (headerNewlineToSpace v) ++ CRLF ++ out)
        "" values.

(** [Header.WriteSubset]: a key that is not a valid field name is
    skipped. *)
Definition WriteSubset (h : HeaderMap) (exclude : list string) : string :=
  foldr (fun kv out =>
           if ValidHeaderFieldName kv.1 then writeValues kv.1 kv.2 ++ out
           else out)
        "" (sortedKeyValues h exclude).

(** The text of the dump up to and including the empty line. *)
Definition dumpHead (req : Request) (h : HeaderMap) : string :=
  let reqURI :=
    if String.eqb (RequestURI req) "" then URL_RequestURI (URL req)
    else RequestURI req in
  let absRequestURI :=
    strings.HasPrefix (RequestURI req) "http://" ||
    strings.HasPrefix (RequestURI req) "https://" in
  let host :=
    if String.eqb (Host req) "" then URL_Host (URL req) else Host req in
  valueOrDefault (Method req) "GET" ++ " " ++ reqURI ++ " HTTP/" ++
    pretty (ProtoMajor req) ++ "." ++ pretty (ProtoMinor req) ++ CRLF ++
  (if absRequestURI then ""
   else if String.eqb host "" then "" else "Host: " ++ host ++ CRLF) ++
  (match TransferEncoding req with
   | [] => ""
   | te => "Transfer-Encoding: " ++ strings.Join te "," ++ CRLF
   end) ++
  WriteSubset h reqWriteExcludeHeaderDump ++
  CRLF.

(** With [body] false the function reads the request and its header
    map and nothing else.  With [body] true it reads the body stream to
    its end and appends the bytes (the chunk framing of a chunked body
    is left out of the model).  Writing to the buffer does not fail. *)
Definition DumpRequest (req : Request) (body : bool) : M (string * option error) :=
  fun w =>
    let head := dumpHead req (headerAt w (Header req)) in
    match (if body then Body req else None) with
    | None => ((head, None), w)
    | Some b =>
        match bodies w !! b with
        | None => ((head, None), w)
        | Some st =>
            let rest := String.substring (body_read st)
                          (String.length (body_data st) - body_read st)
                          (body_data st) in
            ((head ++ rest, None),
             set_bodies <[b := {| body_data := body_data st;
                                  body_read := String.length (body_data st) |}]> w)
        end
    end.

End httputil.

(** ** The operations of [gin.Context] that the middleware calls *)

Definition abortIndex : Z := 63.

Definition c_Abort : World → World :=
  set_c (fun c => {| Request_ := Request_ c; index := abortIndex;
                     Errors := Errors c; Writer := Writer c |}).


(** [c.Error(err)] for a non-nil [err] with no [gin.Error] in its
    chain. *)
Definition c_Error (err : error) : World → World :=
  set_c (fun c => {| Request_ := Request_ c; index := index c;
                     Errors := (Errors c ++ [{| gin_Err := err; gin_Type := ErrorTypePrivate |}])%list;
                     Writer := Writer c |}).

Definition c_GetHeader (key : string) (w : World) : string :=
  MIMEHeader_Get (headerAt w (Header (Request_ (c w)))) key.

(** [responseWriter.WriteHeader]: once the header has been sent the
    status is the one that was sent (gin prints a warning in debug
    mode). *)
Definition WriteHeader (code : Z) (rw : ResponseWriter) : ResponseWriter :=
  if (0 <? code)%Z && negb (w_status rw =? code)%Z then
    if w_written rw then rw
    else {| w_status := code; w_written := w_written rw; w_body := w_body rw |}
  else rw.

(** [responseWriter.WriteHeaderNow]: the header is sent, if it has not
    been. *)
Definition WriteHeaderNow (rw : ResponseWriter) : ResponseWriter :=
  {| w_status := w_status rw; w_written := true; w_body := w_body rw |}.

(** A write of one JSON object ([render.JSON] through
    [responseWriter.Write]): the header is sent first, if it has not
    been, and the object follows what the body holds. *)
Definition WriteJSON (obj : gin_H) (rw : ResponseWriter) : ResponseWriter :=
  {| w_status := w_status rw; w_written := true;
     w_body := (w_body rw ++ [obj])%list |}.

Definition bodyAllowedForStatus (code : Z) : bool :=
  negb (((100 <=? code)%Z && (code <=? 199)%Z) || (code =? 204)%Z || (code =? 304)%Z).

(** [c.JSON(code, obj)], which is [c.Render]: the status is set, and
    the object is written when the status allows a body. *)
Definition c_JSON (code : Z) (obj : gin_H) : World → World :=
  set_c (fun c => {| Request_ := Request_ c; index := index c;
                     Errors := Errors c;
                     Writer :=
                       if bodyAllowedForStatus code
                       then WriteJSON obj (WriteHeader code (Writer c))
                       else WriteHeaderNow (WriteHeader code (Writer c)) |}).

Definition c_AbortWithStatusJSON (code : Z) (obj : gin_H) (w : World) : World :=
  c_JSON code obj (c_Abort w).

Definition StatusInternalServerError : Z := 500.

(** ** Time, stack and log *)

Definition time_Now (w : World) : Z := clock w.
Definition time_Since (start : Z) (w : World) : Z := (clock w - start)%Z.
Definition debug_Stack (w : World) : string := stack w.

Definition log_Printf (format : string) (args : list fmtArg) : World → World :=
  set_logs (fun l => (l ++ [{| log_format := format; log_args := args |}])%list).

(** The text of a log line.  [fmt] prints an argument at each verb, in
    the order of the arguments: a duration through its [String] method
    (given here as [durationString]), a string or a byte slice as it
    is, a boolean as [true] or [false], an error through [fmt_v]. *)
Definition renderArg (durationString : Z → string) (a : fmtArg) : string :=
  match a with
  | ArgDuration d => durationString d
  | ArgString s => s
  | ArgBool b => if b then "true" else "false"
  | ArgError e => fmt_v e
  | ArgBytes b => b
  end.

Fixpoint Sprintf (durationString : Z → string) (format : string)
    (args : list fmtArg) : string :=
  match format with
  | EmptyString => EmptyString
  | String "%" (String verb rest) =>
      match args with
      | a :: args' =>
          renderArg durationString a ++ Sprintf durationString rest args'
      | [] =>
          "%!" ++ String verb "(MISSING)" ++ Sprintf durationString rest []
      end
  | String ch rest => String ch (Sprintf durationString rest args)
  end.

(** ** Handlers

    A handler runs on the state and either returns or panics with a
    value; the state it leaves is kept in both cases. *)

Inductive outcome :=
| Returned (w : World)
| Panicked (rec : any) (w : World).

Definition HandlerFunc := World → outcome.

(** The run-time error of a nil dereference. *)
Definition nilDereference : any :=
  any_error (errorString "runtime error: invalid memory address or nil pointer dereference").

(** ** The middleware *)

Section Middleware.

(** [httputil.DumpRequest], whatever it does. *)
Variable DumpRequest : Request → bool → M (string * option error).

Definition sensitiveHeaders : list string :=
  ["Authorization"; "Proxy-Authorization"; "Cookie"; "Set-Cookie";
   "X-Api-Key"; "X-Auth-Token"].

Definition REDACTED : string := "***REDACTED***".

(** [*r2 = *r; r2.Header = redacted] *)
Definition shallowCopy (r : Request) (redacted : loc) : Request :=
  {| Method := Method r; URL := URL r;
     ProtoMajor := ProtoMajor r; ProtoMinor := ProtoMinor r;
     Header := redacted; Body := Body r;
     TransferEncoding := TransferEncoding r;
     Host := Host r; RequestURI := RequestURI r |}.

Definition dumpRequestSafe (r : Request) : M string :=
  redacted <- Header_Clone (Header r) ;;
  forEach sensitiveHeaders (fun h =>
    v <- Header_Get redacted h ;;
    if negb (String.eqb v "") then Header_Set redacted h REDACTED
    else ret tt) ;;
  let r2 := shallowCopy r redacted in
  res <- DumpRequest r2 false ;;
  match res with
  | (_, Some err) => ret ("could not dump request: " ++ fmt_v err)
  | (dump, None) => ret (strings.TrimSpace dump)
  end.

Definition panicFormat : string :=
  "[PANIC] %s | %s %s | brokenPipe=%t | err=%v" ++ LF ++
  "Request:" ++ LF ++ "%s" ++ LF ++ "Stack:" ++ LF ++ "%s".

(** [RecoveryJSON()] applied to the rest of the chain: [Next] is
    [c.Next()].  A panic of the deferred function itself leaves the
    handler as a panic. *)
Definition RecoveryJSON (Next : HandlerFunc) : HandlerFunc := fun w =>
  let start := time_Now w in
  match Next w with
  | Returned w => Returned w
  | Panicked rec w =>
      let err :=
        match rec with
        | any_error v => v
        | any_other v => errorString v
        end in
      match isBrokenPipe (Some err) with
      | None => Panicked nilDereference w
      | Some brokenPipe =>
          let '(reqDump, w) := dumpRequestSafe (Request_ (c w)) w in
          let stack := debug_Stack w in
          let w :=
            log_Printf panicFormat
              [ArgDuration (time_Since start w);
               ArgString (Method (Request_ (c w)));
               ArgString (URL_String (URL (Request_ (c w))));
               ArgBool brokenPipe; ArgError err;
               ArgString reqDump; ArgBytes stack] w in
          if brokenPipe then
            Returned (c_Abort (c_Error err w))
          else
            let reqID := c_GetHeader "X-Request-ID" w in
            Returned
              (c_AbortWithStatusJSON StatusInternalServerError
                 {[ "error" := "internal_error";
                    "message" := "Something went wrong";
                    "requestId" := reqID ]} w)
      end
  end.

End Middleware.

(** * Vocabulary of the properties and example values *)

(** The first half of [dumpRequestSafe], up to the copy of the request:
    the clone of the headers with the sensitive ones redacted; the
    result is the reference [redacted]. *)
Definition redactedHeaders (r : Request) : M loc :=
  redacted <- Header_Clone (Header r) ;;
  forEach sensitiveHeaders (fun h =>
    v <- Header_Get redacted h ;;
    if negb (String.eqb v "") then Header_Set redacted h REDACTED
    else ret tt) ;;
  ret redacted.

(** The levels of wrapping of an error: the error itself and
    everything that repeated [Unwrap] reaches (the cause of a
    [net.OpError] is what its [Unwrap] returns). *)
Fixpoint chain (e : error) : list error :=
  e :: match e with
       | errorString _ => []
       | wrapError _ e' => chain e'
       | wrapErrors _ es =>
           (fix all (es : list error) : list error :=
              match es with
              | [] => []
              | e' :: es' => (chain e' ++ all es')%list
              end) es
       | joinError es =>
           (fix all (es : list error) : list error :=
              match es with
              | [] => []
              | e' :: es' => (chain e' ++ all es')%list
              end) es
       | causeError _ err =>
           match err with
           | Some cause => chain cause
           | None => []
           end
       | OpError ne =>
           match ne with
           | mkOpError _ _ _ _ (Some cause) => chain cause
           | _ => []
           end
       end.


(** An error as [fmt.Errorf("broken pipe while relaying: %w", opErr)]
    builds it, for a dial that timed out. *)
Definition dialTimeout : net_OpError :=
  mkOpError "dial" "tcp" None (Some "10.0.0.7:443") (Some (errorString "i/o timeout")).

Definition relayError : error :=
  wrapError "broken pipe while relaying: dial tcp 10.0.0.7:443: i/o timeout"
    (OpError dialTimeout).

(** The error of a read from a connection that the peer reset, and
    what [errors.Join] makes of it and of the dial that timed out. *)
Definition connReset : net_OpError :=
  mkOpError "read" "tcp" (Some "10.0.0.1:2053") (Some "10.0.0.9:51544")
    (Some (errorString "read: connection reset by peer")).

Definition joinedError : error :=
  joinError [OpError connReset; OpError dialTimeout].

(** One turn of the loop of [dumpRequestSafe], on the contents of the
    map [redacted]. *)
Definition redactStep (m : HeaderMap) (h : string) : HeaderMap :=
  if negb (String.eqb (MIMEHeader_Get m h) "") then MIMEHeader_Set m h REDACTED
  else m.

(** What the loop does to one entry: an entry whose first value is not
    empty becomes the marker alone. *)
Definition redactEntry (o : option (list string)) : option (list string) :=
  match o with
  | Some (v :: vs) => if String.eqb v "" then o else Some [REDACTED]
  | _ => o
  end.

(** The contents of the snapshot's header map, from those of the
    request's. *)
Definition redact (m : HeaderMap) : HeaderMap := foldl redactStep m sensitiveHeaders.

(** The state in which a handler ends. *)
Definition world_of (o : outcome) : World :=
  match o with
  | Returned w => w
  | Panicked _ w => w
  end.

(** The recovered value as an error: step 1 of the deferred function. *)
Definition asError (rec : any) : error :=
  match rec with
  | any_error v => v
  | any_other v => errorString v
  end.

(** The log line of a recovered fault. *)
Definition panicLine (elapsed : Z) (method url : string) (brokenPipe : bool)
    (err : error) (reqDump stack : string) : LogLine :=
  {| log_format := panicFormat;
     log_args := [ArgDuration elapsed; ArgString method; ArgString url;
                  ArgBool brokenPipe; ArgError err;
                  ArgString reqDump; ArgBytes stack] |}.

(** The JSON object of the response. *)
Definition errorBody (reqID : string) : gin_H :=
  {[ "error" := "internal_error";
     "message" := "Something went wrong";
     "requestId" := reqID ]}.

(** A request of the panel, with a token and a request identifier, in
    a state where nothing has been logged or written yet. *)
Definition exampleURL : url_URL :=
  {| URL_String := "/panel/api/inbounds/list";
     URL_RequestURI := "/panel/api/inbounds/list";
     URL_Host := "" |}.

Definition exampleRequest : Request :=
  {| Method := "GET"; URL := exampleURL; ProtoMajor := 1; ProtoMinor := 1;
     Header := 1%positive; Body := Some 1%positive;
     TransferEncoding := [];
     Host := "panel.example.com"; RequestURI := "/panel/api/inbounds/list" |}.

Definition exampleHeaders : HeaderMap :=
  {[ "Accept" := ["*/*"];
     "Authorization" := ["secret123"];
     "X-Request-Id" := ["req-42"] ]}.

Definition exampleWorld : World :=
  {| headers := {[ 1%positive := exampleHeaders ]};
     bodies := {[ 1%positive := {| body_data := "{}"; body_read := 0 |} ]};
     clock := 1000; stack := "goroutine 7 [running]:"; logs := [];
     c := {| Request_ := exampleRequest; index := 0; Errors := [];
             Writer := {| w_status := 200; w_written := false; w_body := [] |} |} |}.

(** A chain that takes 250 nanoseconds and panics with [rec]. *)
Definition panicsWith (rec : any) : HandlerFunc := fun w =>
  Panicked rec
    {| headers := headers w; bodies := bodies w; clock := (clock w + 250)%Z;
       stack := stack w; logs := logs w; c := c w |}.

(** A chain that writes a response and returns. *)
Definition answers : HandlerFunc := fun w =>
  Returned (c_JSON 200 {[ "success" := "true" ]} w).


(** The error of a write to a connection that the peer closed. *)
Definition writeBrokenPipe : error :=
  OpError (mkOpError "write" "tcp" (Some "10.0.0.1:2053") (Some "10.0.0.9:51544")
             (Some (errorString "write: broken pipe"))).

(** A network error without a cause, as a handler can build and panic
    with. *)
Definition bareOpError : error := OpError (mkOpError "read" "tcp" None None None).

(** A dump function that fails. *)
Definition failingDump : Request → bool → M (string * option error) :=
  fun _ _ w => (("", Some (errorString "unexpected EOF")), w).

(** [x] occurs in [s]. *)
Definition occurs (x s : string) : Prop := ∃ pre post, s = pre ++ x ++ post.

(** The first byte, and the last byte, of [x] is not one of the six
    ASCII bytes of white space. *)
Definition firstSolid (x : string) : bool :=
  match x with
  | String ch _ => negb (strings.isSpace ch)
  | EmptyString => false
  end.

Fixpoint lastSolid (x : string) : bool :=
  match x with
  | EmptyString => false
  | String ch EmptyString => negb (strings.isSpace ch)
  | String _ x' => lastSolid x'
  end.

(** An ASCII byte that is not white space. *)
Definition plainByte (ch : ascii) : bool :=
  (utf8.byte ch <? 128)%Z && negb (strings.isSpace ch).

(** The first byte, and the last byte, of [x] is such a byte. *)
Definition firstPlain (x : string) : bool :=
  match x with
  | String ch _ => plainByte ch
  | EmptyString => false
  end.

Fixpoint lastPlain (x : string) : bool :=
  match x with
  | EmptyString => false
  | String ch EmptyString => plainByte ch
  | String _ x' => lastPlain x'
  end.

Fixpoint hasPlain (s : string) : bool :=
  match s with
  | EmptyString => false
  | String ch s' => plainByte ch || hasPlain s'
  end.

(** A rune can start at the beginning of [t]: [t] is empty or its
    first byte is not a continuation byte. *)
Definition startsRune (t : string) : bool :=
  match t with
  | EmptyString => true
  | String ch _ => negb (utf8.cont (utf8.byte ch))
  end.

(** The first [n] bytes of [s], and all the bytes of [s], are outside
    ASCII. *)
Fixpoint highPrefix (n : nat) (s : string) : bool :=
  match n with
  | O => true
  | S n' =>
      match s with
      | String ch s' => (128 <=? utf8.byte ch)%Z && highPrefix n' s'
      | EmptyString => false
      end
  end.

Fixpoint allHigh (s : string) : bool :=
  match s with
  | EmptyString => true
  | String ch s' => (128 <=? utf8.byte ch)%Z && allHigh s'
  end.

(** The continuation bytes at the beginning of a text, which belong to
    no rune, and the text after them. *)
Fixpoint strayBytes (s : string) : string :=
  match s with
  | EmptyString => EmptyString
  | String ch s' =>
      if utf8.cont (utf8.byte ch) then String ch (strayBytes s') else EmptyString
  end.

Fixpoint afterStray (s : string) : string :=
  match s with
  | EmptyString => EmptyString
  | String ch s' => if utf8.cont (utf8.byte ch) then afterStray s' else s
  end.

(** The text without its longest suffix of white space: a suffix is
    white space when [strings.TrimLeft] leaves nothing of it. *)
Fixpoint withoutSpaces (s : string) : string :=
  match s with
  | EmptyString => EmptyString
  | String c s' =>
      match strings.TrimLeft s with
      | EmptyString => EmptyString
      | _ => String c (withoutSpaces s')
      end
  end.

(** The cleaning of a header value on its way to the wire. *)
Definition wireValue (v : string) : string :=
  httputil.TrimString (httputil.headerNewlineToSpace v).

(** A request with two Cookie lines, the first of them empty. *)
Definition twoCookies : HeaderMap :=
  {[ "Accept" := ["*/*"]; "Cookie" := [""; "session=abc"] ]}.

Definition twoCookiesWorld : World :=
  {| headers := {[ 1%positive := twoCookies ]};
     bodies := bodies exampleWorld; clock := 1000; stack := ""; logs := [];
     c := c exampleWorld |}.

(** A request that carries its token in the query as well. *)
Definition tokenRequest : Request :=
  {| Method := "GET"; URL := {| URL_String := "/panel/api/server/status?token=secret123";
                                URL_RequestURI := "/panel/api/server/status?token=secret123";
                                URL_Host := "" |};
     ProtoMajor := 1; ProtoMinor := 1;
     Header := 1%positive; Body := None;
     TransferEncoding := [];
     Host := "panel.example.com";
     RequestURI := "/panel/api/server/status?token=secret123" |}.

(** The values of the lines whose name has the canonical form [k]. *)
Definition valuesOf (k : string) (lines : list (string * string)) : list string :=
  (filter (fun kv => textproto.CanonicalMIMEHeaderKey kv.1 = k) lines).*2.

(** A request received with its Authorization header in lower case. *)
Definition lowerCaseLines : list (string * string) :=
  [("accept", "*/*"); ("authorization", "Bearer secret123")].

Definition lowerCaseWorld : World :=
  {| headers := {[ 1%positive := receivedHeaders lowerCaseLines ]};
     bodies := bodies exampleWorld; clock := 1000; stack := ""; logs := [];
     c := c exampleWorld |}.




(** The request [r] with another body reference. *)
Definition withBody (r : Request) (b : option loc) : Request :=
  {| Method := Method r; URL := URL r;
     ProtoMajor := ProtoMajor r; ProtoMinor := ProtoMinor r;
     Header := Header r; Body := b;
     TransferEncoding := TransferEncoding r;
     Host := Host r; RequestURI := RequestURI r |}.

(** A message that names the broken pipe in capitals. *)
Definition shoutedError : error :=
  errorString "write tcp 10.0.0.1:2053: BROKEN PIPE (client went away)".

(** The Kelvin sign [U+212A], of which the lower-case form is the
    letter k, and the no-break space [U+00A0], which is white space. *)
Definition kelvinSign : string := utf8.EncodeRune 8490.
Definition noBreakSpace : string := utf8.EncodeRune 160.

Definition kelvinError : error :=
  errorString ("write tcp 10.0.0.1:2053: bro" ++ kelvinSign ++ "en pipe").

(** A request whose last header line ends with a no-break space. *)
Definition paddedToken : HeaderMap :=
  {[ "Accept" := ["*/*"]; "X-Auth-Token" := [""; "tok" ++ noBreakSpace] ]}.

Definition paddedTokenWorld : World :=
  {| headers := {[ 1%positive := paddedToken ]};
     bodies := bodies exampleWorld; clock := 1000; stack := ""; logs := [];
     c := c exampleWorld |}.

(** * Properties *)

Example isBrokenPipe_ex1 :
  isBrokenPipe (Some (errorString "write tcp: Broken Pipe")) = Some true.
Proof. reflexivity. Qed.

(** Lower case is that of Unicode: the Kelvin sign is read as the
    letter k. *)
Example isBrokenPipe_kelvin_sign :
  strings.ToLower ("bro" ++ kelvinSign ++ "en pipe") = "broken pipe" ∧
  isBrokenPipe (Some kelvinError) = Some true.
Proof. by vm_compute. Qed.

(** White space is that of Unicode: the no-break space at the end of
    the last header line is cut with the line ends. *)
Example dumpRequestSafe_no_break_space :
  strings.HasPrefix
    (dumpRequestSafe httputil.DumpRequest exampleRequest paddedTokenWorld).1
    "GET /panel/api/inbounds/list HTTP/1.1" = true ∧
  strings.Contains
    (dumpRequestSafe httputil.DumpRequest exampleRequest paddedTokenWorld).1
    "X-Auth-Token: tok" = true ∧
  strings.Contains
    (dumpRequestSafe httputil.DumpRequest exampleRequest paddedTokenWorld).1
    noBreakSpace = false ∧
  strings.TrimSpace (noBreakSpace ++ " a" ++ noBreakSpace ++ "b " ++ noBreakSpace) =
    "a" ++ noBreakSpace ++ "b".
Proof. by vm_compute. Qed.

(** ** Appending strings *)

Lemma append_cons ch (a b : string) : String ch a ++ b = String ch (a ++ b).
Proof. done. Qed.

Lemma append_assoc (a b d : string) : (a ++ b) ++ d = a ++ b ++ d.
Proof.
  induction a as [|ch a IH]; [done |]. rewrite !append_cons. by f_equal.
Qed.

Lemma append_nil_r (a : string) : a ++ "" = a.
Proof.
  induction a as [|ch a IH]; [done |]. rewrite append_cons. by f_equal.
Qed.

(** ** The classifier *)

Lemma chain_self e : e ∈ chain e.
Proof. destruct e; simpl; apply list_elem_of_here. Qed.

Lemma chain_all_spec (es : list error) e' :
  e' ∈ (fix all (es : list error) : list error :=
          match es with
          | [] => []
          | e' :: es' => (chain e' ++ all es')%list
          end) es ↔
  ∃ e, e ∈ es ∧ e' ∈ chain e.
Proof.
  induction es as [|e es IH].
  - split; [intros H; inversion H | intros (e & H & _); inversion H].
  - rewrite elem_of_app, IH. split.
    + intros [H | (e0 & H1 & H2)].
      * exists e. split; [apply list_elem_of_here | done].
      * exists e0. split; [by apply list_elem_of_further | done].
    + intros (e0 & H1 & H2). apply elem_of_cons in H1 as [-> | H1].
      * by left.
      * right. by exists e0.
Qed.

Lemma chain_wrapErrors msg es e' :
  e' ∈ chain (wrapErrors msg es) ↔
  e' = wrapErrors msg es ∨ ∃ e, e ∈ es ∧ e' ∈ chain e.
Proof.
  simpl. rewrite elem_of_cons. apply or_iff_compat_l, chain_all_spec.
Qed.

Lemma chain_joinError es e' :
  e' ∈ chain (joinError es) ↔
  e' = joinError es ∨ ∃ e, e ∈ es ∧ e' ∈ chain e.
Proof.
  simpl. rewrite elem_of_cons. apply or_iff_compat_l, chain_all_spec.
Qed.


Lemma errors_As_first (es : list error) ne :
  (fix first (es : list error) : option net_OpError :=
     match es with
     | [] => None
     | e :: es' =>
         match errors_As e with
         | Some ne => Some ne
         | None => first es'
         end
     end) es = Some ne →
  ∃ e, e ∈ es ∧ errors_As e = Some ne.
Proof.
  induction es as [|e es IH]; [done |].
  destruct (errors_As e) as [ne'|] eqn:He.
  - intros [= <-]. exists e. split; [apply list_elem_of_here | done].
  - intros H. destruct (IH H) as (e0 & H1 & H2).
    exists e0. split; [by apply list_elem_of_further | done].
Qed.

(** What [errors.As] finds is one of the levels of the error. *)
Lemma errors_As_chain e ne : errors_As e = Some ne → OpError ne ∈ chain e.
Proof.
  revert ne.
  induction e as [s | msg e IH | msg es IH | es IH | prefix err IH | ne0 _]
    using error_ind; intros ne H.
  - done.
  - simpl in *. apply list_elem_of_further. by apply IH.
  - apply chain_wrapErrors. right.
    destruct (errors_As_first _ _ H) as (e0 & Hin & H0).
    exists e0. split; [done |].
    clear H. induction IH as [| e1 He1 es _ IHes]; [inversion Hin |].
    apply elem_of_cons in Hin as [-> | Hin]; [by apply He1 | by apply IHes].
  - apply chain_joinError. right.
    destruct (errors_As_first _ _ H) as (e0 & Hin & H0).
    exists e0. split; [done |].
    clear H. induction IH as [| e1 He1 es _ IHes]; [inversion Hin |].
    apply elem_of_cons in Hin as [-> | Hin]; [by apply He1 | by apply IHes].
  - destruct IH as [cause IH |]; [| done].
    simpl in *. apply list_elem_of_further. by apply IH.
  - simpl in H. injection H as ->. apply chain_self.
Qed.






(** C10, as stated, fails: the chain of [joinedError] holds the network
    error of the dial, whose cause is not nil and has neither text in
    its message, and the classifier returns true, because [errors.As]
    finds the network error of the read before it. *)
Lemma isBrokenPipe_later_cause_ignored :
  OpError dialTimeout ∈ chain joinedError ∧
  dialTimeout =
    mkOpError "dial" "tcp" None (Some "10.0.0.7:443") (Some (errorString "i/o timeout")) ∧
  Error (errorString "i/o timeout") = Some "i/o timeout" ∧
  strings.Contains (strings.ToLower "i/o timeout") "broken pipe" = false ∧
  strings.Contains (strings.ToLower "i/o timeout") "connection reset by peer" = false ∧
  isBrokenPipe (Some joinedError) = Some true.
Proof.
  split; [| by vm_compute].
  apply chain_joinError. right. exists (OpError dialTimeout).
  split; [| apply chain_self].
  apply list_elem_of_further, list_elem_of_here.
Qed.

(** C10, amended: when the network error that [errors.As] finds, the
    first one met while unwrapping, has a cause, the message of that
    cause alone decides: the result is true exactly when it contains
    one of the two texts, and so false when it contains neither,
    whatever the top-level message says; the classifier panics when the
    [Error] method of the cause does. *)
Theorem isBrokenPipe_cause_decides
    (e : error) (op net : string) (src addr : option string) (cause : error) :
  errors_As e = Some (mkOpError op net src addr (Some cause)) →
  OpError (mkOpError op net src addr (Some cause)) ∈ chain e ∧
  isBrokenPipe (Some e) =
    (fun m => brokenPipeText (strings.ToLower m)) <$> Error cause ∧
  (∀ m, Error cause = Some m →
        strings.Contains (strings.ToLower m) "broken pipe" = false →
        strings.Contains (strings.ToLower m) "connection reset by peer" = false →
        isBrokenPipe (Some e) = Some false).
Proof.
  intros HAs. split; [by apply errors_As_chain |].
  assert (isBrokenPipe (Some e) =
          (fun m => brokenPipeText (strings.ToLower m)) <$> Error cause) as H.
  { unfold isBrokenPipe. rewrite HAs. by destruct (Error cause). }
  split; [done |]. intros m Hm H1 H2. rewrite H, Hm. simpl.
  unfold brokenPipeText. by rewrite H1, H2.
Qed.

Lemma isBrokenPipe_cause_decides_witness :
  errors_As relayError =
    Some (mkOpError "dial" "tcp" None (Some "10.0.0.7:443")
            (Some (errorString "i/o timeout"))) ∧
  (strings.ToLower <$> Error relayError) =
    Some "broken pipe while relaying: dial tcp 10.0.0.7:443: i/o timeout" ∧
  isBrokenPipe (Some relayError) = Some false.
Proof.
  split; [reflexivity |]. split; [reflexivity |].
  destruct (isBrokenPipe_cause_decides relayError "dial" "tcp" None
              (Some "10.0.0.7:443") (errorString "i/o timeout") eq_refl)
    as (_ & _ & H).
  apply (H "i/o timeout"); reflexivity.
Defined.

(** ** The redacted snapshot *)

Lemma redactEntry_idemp o : redactEntry (redactEntry o) = redactEntry o.
Proof.
  destruct o as [[|v vs]|]; simpl; try done.
  destruct (String.eqb v "") eqn:E; simpl; [by rewrite E | done].
Qed.

Lemma sensitiveHeaders_canonical h :
  h ∈ sensitiveHeaders → textproto.CanonicalMIMEHeaderKey h = h.
Proof.
  unfold sensitiveHeaders. intros H.
  repeat (apply elem_of_cons in H; destruct H as [H | H]; [by subst h |]).
  inversion H.
Qed.

Lemma redactStep_lookup m h k :
  textproto.CanonicalMIMEHeaderKey h = h →
  redactStep m h !! k = if decide (k = h) then redactEntry (m !! h) else m !! k.
Proof.
  intros Hcan. unfold redactStep, MIMEHeader_Get, MIMEHeader_Set. rewrite Hcan.
  destruct (m !! h) as [[|v vs]|] eqn:Hm; simpl.
  - case_decide; congruence.
  - destruct (String.eqb v "") eqn:E; simpl.
    + case_decide; congruence.
    + rewrite lookup_insert. case_decide; case_decide; congruence.
  - case_decide; congruence.
Qed.

Lemma redact_fold_lookup hs m k :
  (∀ h, h ∈ hs → textproto.CanonicalMIMEHeaderKey h = h) →
  foldl redactStep m hs !! k =
  if decide (k ∈ hs) then redactEntry (m !! k) else m !! k.
Proof.
  revert m. induction hs as [|h hs IH]; intros m Hcan; cbn [foldl].
  - rewrite decide_False; [done | apply not_elem_of_nil].
  - rewrite IH by (intros; apply Hcan; by apply list_elem_of_further).
    rewrite redactStep_lookup by (apply Hcan; apply list_elem_of_here).
    destruct (decide (k = h)) as [-> | Hne].
    + rewrite (decide_True (P := h ∈ h :: hs)) by apply list_elem_of_here.
      case_decide; [apply redactEntry_idemp | done].
    + destruct (decide (k ∈ hs)) as [Hin | Hnin].
      * rewrite (decide_True (P := k ∈ h :: hs)) by (by apply list_elem_of_further).
        done.
      * rewrite (decide_False (P := k ∈ h :: hs)); [done |].
        rewrite elem_of_cons. intros [? | ?]; done.
Qed.

Lemma redact_lookup m k :
  redact m !! k = if decide (k ∈ sensitiveHeaders) then redactEntry (m !! k) else m !! k.
Proof. apply redact_fold_lookup, sensitiveHeaders_canonical. Qed.

Lemma redact_empty : redact ∅ = ∅.
Proof.
  apply map_eq. intros k. rewrite redact_lookup, lookup_empty. by case_decide.
Qed.

Lemma set_headers_id w : set_headers (fun s => s) w = w.
Proof. by destruct w. Qed.

Lemma headers_set_headers f w : headers (set_headers f w) = f (headers w).
Proof. done. Qed.

Lemma set_headers_compose f g w :
  set_headers f (set_headers g w) = set_headers (fun s => f (g s)) w.
Proof. done. Qed.

Lemma set_headers_ext f g w :
  f (headers w) = g (headers w) → set_headers f w = set_headers g w.
Proof. unfold set_headers. by intros ->. Qed.

(** The loop, run on a reference that the store binds. *)
Lemma forEach_redact_bound hs l m w :
  headers w !! l = Some m →
  forEach hs (fun h =>
    v <- Header_Get l h ;;
    if negb (String.eqb v "") then Header_Set l h REDACTED else ret tt) w
  = (tt, set_headers <[l := foldl redactStep m hs]> w).
Proof.
  revert m w. induction hs as [|h hs IH]; intros m w Hl; simpl.
  - unfold ret. f_equal. rewrite <- (set_headers_id w) at 1.
    apply set_headers_ext. by rewrite insert_id.
  - unfold bind at 1. unfold bind at 1. unfold Header_Get at 1.
    assert (headerAt w l = m) as Hat by (unfold headerAt; by rewrite Hl).
    rewrite Hat.
    destruct (negb (String.eqb (MIMEHeader_Get m h) "")) eqn:E.
    + unfold Header_Set. cbn beta iota.
      rewrite (IH (MIMEHeader_Set m h REDACTED)).
      * f_equal. rewrite set_headers_compose. apply set_headers_ext.
        assert (redactStep m h = MIMEHeader_Set m h REDACTED) as ->
          by (unfold redactStep; by rewrite E).
        apply map_eq. intros k. rewrite !lookup_insert.
        case_decide; [done |]. by rewrite lookup_alter_ne.
      * rewrite headers_set_headers, lookup_alter_eq, Hl. done.
    + unfold ret at 1. rewrite (IH m w Hl).
      assert (redactStep m h = m) as -> by (unfold redactStep; by rewrite E).
      done.
Qed.

(** The loop, run on the nil map: no entry has a value and nothing is
    assigned. *)
Lemma forEach_redact_nil hs l w :
  headers w !! l = None →
  forEach hs (fun h =>
    v <- Header_Get l h ;;
    if negb (String.eqb v "") then Header_Set l h REDACTED else ret tt) w
  = (tt, w).
Proof.
  intros Hl. induction hs as [|h hs IH]; simpl; [done |].
  unfold bind at 1. unfold bind at 1. unfold Header_Get at 1.
  unfold headerAt. rewrite Hl. simpl.
  unfold MIMEHeader_Get. rewrite lookup_empty. simpl. unfold ret at 1. apply IH.
Qed.

Lemma redactedHeaders_bound r w m :
  headers w !! Header r = Some m →
  redactedHeaders r w =
  (fresh (dom (headers w)),
   set_headers <[fresh (dom (headers w)) := redact m]> w).
Proof.
  intros Hl. unfold redactedHeaders, bind at 1, Header_Clone. rewrite Hl.
  set (h2 := fresh (dom (headers w))).
  unfold bind. rewrite (forEach_redact_bound _ h2 m).
  - unfold ret. f_equal. rewrite set_headers_compose. apply set_headers_ext.
    by rewrite insert_insert_eq.
  - rewrite headers_set_headers. apply lookup_insert_eq.
Qed.

Lemma redactedHeaders_nil r w :
  headers w !! Header r = None → redactedHeaders r w = (Header r, w).
Proof.
  intros Hl. unfold redactedHeaders, bind at 1, Header_Clone. rewrite Hl.
  unfold bind. by rewrite (forEach_redact_nil _ (Header r) w Hl).
Qed.

Lemma fresh_unbound (s : gmap loc HeaderMap) : s !! fresh (dom s) = None.
Proof. apply not_elem_of_dom, is_fresh. Qed.

(** What [redactedHeaders] returns and leaves: the snapshot's map holds
    [redact] of the request's; every map that the store held is as it
    was; nothing but the store of header maps changes. *)
Lemma redactedHeaders_spec r w :
  ∃ redacted grow,
    redactedHeaders r w = (redacted, set_headers grow w) ∧
    headerAt (set_headers grow w) redacted = redact (headerAt w (Header r)) ∧
    (∀ l, is_Some (headers w !! l) → grow (headers w) !! l = headers w !! l) ∧
    headerAt (set_headers grow w) (Header r) = headerAt w (Header r) ∧
    (is_Some (headers w !! Header r) → redacted ≠ Header r).
Proof.
  destruct (headers w !! Header r) as [m|] eqn:Hl.
  - exists (fresh (dom (headers w))), <[fresh (dom (headers w)) := redact m]>.
    split; [by apply redactedHeaders_bound |].
    assert (fresh (dom (headers w)) ≠ Header r) as Hne.
    { intros E. pose proof (fresh_unbound (headers w)) as F. rewrite E in F. congruence. }
    repeat split.
    + unfold headerAt. rewrite headers_set_headers, lookup_insert_eq, Hl. done.
    + intros l [x Hx]. rewrite lookup_insert_ne; [done |].
      intros E. pose proof (fresh_unbound (headers w)) as F. rewrite E in F. congruence.
    + unfold headerAt. rewrite headers_set_headers, lookup_insert_ne by done. done.
    + done.
  - exists (Header r), (fun s => s). rewrite set_headers_id.
    split; [by apply redactedHeaders_nil |].
    split; [unfold headerAt; rewrite Hl; simpl; by rewrite redact_empty |].
    split; [done |]. split; [done |]. by intros [x [=]].
Qed.

(** ** [dumpRequestSafe] *)

Lemma dumpRequestSafe_unfold D r w :
  dumpRequestSafe D r w =
  let '(redacted, w1) := redactedHeaders r w in
  let '(res, w2) := D (shallowCopy r redacted) false w1 in
  match res with
  | (_, Some err) => ("could not dump request: " ++ fmt_v err, w2)
  | (dump, None) => (strings.TrimSpace dump, w2)
  end.
Proof.
  unfold dumpRequestSafe, redactedHeaders, bind, ret.
  destruct (Header_Clone (Header r) w) as [redacted w0].
  destruct (forEach sensitiveHeaders _ w0) as [[] w1].
  destruct (D (shallowCopy r redacted) false w1) as [[dump [err|]] w2]; done.
Qed.

Lemma dumpHead_shallowCopy r redacted m :
  httputil.dumpHead (shallowCopy r redacted) m = httputil.dumpHead r m.
Proof. done. Qed.

Lemma DumpRequest_false req w :
  httputil.DumpRequest req false w =
  ((httputil.dumpHead req (headerAt w (Header req)), None), w).
Proof. done. Qed.

(** With the library's dump, the text is the head of the snapshot with
    the white space around it removed, and the state is the one that
    the redaction left. *)
Lemma dumpRequestSafe_httputil r w redacted w1 :
  redactedHeaders r w = (redacted, w1) →
  dumpRequestSafe httputil.DumpRequest r w =
  (strings.TrimSpace (httputil.dumpHead r (headerAt w1 redacted)), w1).
Proof.
  intros H. rewrite dumpRequestSafe_unfold, H, DumpRequest_false.
  by rewrite dumpHead_shallowCopy.
Qed.

(** The path of a recovered fault, for any dump function: the state
    after the dump is logged to, and then either aborted with the error
    recorded, or answered. *)
Lemma RecoveryJSON_recovered D Next w rec w1 brokenPipe reqDump w2 :
  Next w = Panicked rec w1 →
  isBrokenPipe (Some (asError rec)) = Some brokenPipe →
  dumpRequestSafe D (Request_ (c w1)) w1 = (reqDump, w2) →
  RecoveryJSON D Next w =
  Returned
    (let w3 :=
       log_Printf panicFormat
         (log_args (panicLine (clock w2 - clock w) (Method (Request_ (c w2)))
                      (URL_String (URL (Request_ (c w2)))) brokenPipe
                      (asError rec) reqDump (stack w2))) w2 in
     if brokenPipe then c_Abort (c_Error (asError rec) w3)
     else c_AbortWithStatusJSON StatusInternalServerError
            (errorBody (c_GetHeader "X-Request-ID" w3)) w3).
Proof.
  intros HN HB HD. unfold RecoveryJSON. rewrite HN.
  change (match rec with any_error v => v | any_other v => errorString v end)
    with (asError rec).
  rewrite HB, HD. by destruct brokenPipe.
Qed.

(** A panic of the classifier leaves the deferred function at once. *)
Lemma RecoveryJSON_classifier_panics D Next w rec w1 :
  Next w = Panicked rec w1 →
  isBrokenPipe (Some (asError rec)) = None →
  RecoveryJSON D Next w = Panicked nilDereference w1.
Proof.
  intros HN HB. unfold RecoveryJSON. rewrite HN.
  change (match rec with any_error v => v | any_other v => errorString v end)
    with (asError rec).
  by rewrite HB.
Qed.

(** The state after the library's dump differs from the one before in
    the store of header maps only, where it has at most one map more. *)
Lemma dumpRequestSafe_httputil_frame r w :
  ∃ redacted grow,
    redactedHeaders r w = (redacted, set_headers grow w) ∧
    dumpRequestSafe httputil.DumpRequest r w =
      (strings.TrimSpace
         (httputil.dumpHead r (redact (headerAt w (Header r)))),
       set_headers grow w) ∧
    headers w !! redacted = None ∧
    headers w ⊆ grow (headers w) ∧
    headerAt (set_headers grow w) (Header r) = headerAt w (Header r).
Proof.
  destruct (redactedHeaders_spec r w) as (redacted & grow & H1 & H2 & H3 & H4 & H5).
  exists redacted, grow. split; [done |].
  split; [by rewrite (dumpRequestSafe_httputil _ _ _ _ H1), H2 |].
  split; [| split; [| done]].
  - destruct (headers w !! Header r) as [m|] eqn:Hl.
    + rewrite (redactedHeaders_bound _ _ _ Hl) in H1. injection H1 as <- _.
      apply fresh_unbound.
    + rewrite (redactedHeaders_nil _ _ Hl) in H1. by injection H1 as <- _.
  - apply map_subseteq_spec. intros l m Hl. rewrite H3; [done | by exists m].
Qed.

(** ** The interceptor *)

(** C6: when the rest of the chain returns, the interceptor returns the
    state that the chain left: no log line is added and the response,
    the errors and the position in the chain are the chain's. *)
Theorem RecoveryJSON_pass_through
    (D : Request → bool → M (string * option error))
    (Next : HandlerFunc) (w w1 : World) :
  Next w = Returned w1 →
  RecoveryJSON D Next w = Returned w1 ∧
  logs (world_of (RecoveryJSON D Next w)) = logs w1 ∧
  Writer (c (world_of (RecoveryJSON D Next w))) = Writer (c w1).
Proof. intros H. unfold RecoveryJSON. by rewrite H. Qed.

Lemma RecoveryJSON_pass_through_witness :
  answers exampleWorld = Returned (c_JSON 200 {[ "success" := "true" ]} exampleWorld) ∧
  logs (world_of (RecoveryJSON httputil.DumpRequest answers exampleWorld)) = [] ∧
  Writer (c (world_of (RecoveryJSON httputil.DumpRequest answers exampleWorld))) =
    {| w_status := 200; w_written := true; w_body := [{[ "success" := "true" ]}] |}.
Proof.
  split; [reflexivity |].
  destruct (RecoveryJSON_pass_through httputil.DumpRequest answers exampleWorld _ eq_refl)
    as (_ & H1 & H2).
  split; [exact H1 | exact H2].
Defined.


Lemma c_GetHeader_RequestID w :
  c_GetHeader "X-Request-ID" w =
  match headerAt w (Header (Request_ (c w))) !! "X-Request-Id" with
  | Some (v :: _) => v
  | _ => ""
  end.
Proof. done. Qed.

(** The writer after the answer of the interceptor: the object follows
    what the body held, and the status is 500 unless the header had
    been sent. *)
Lemma c_AbortWithStatusJSON_writer obj w :
  Writer (c (c_AbortWithStatusJSON StatusInternalServerError obj w)) =
  {| w_status := if w_written (Writer (c w)) then w_status (Writer (c w)) else 500;
     w_written := true;
     w_body := (w_body (Writer (c w)) ++ [obj])%list |}.
Proof.
  unfold c_AbortWithStatusJSON, c_JSON, StatusInternalServerError. cbn.
  unfold WriteJSON, WriteHeader. cbn.
  destruct (w_status (Writer (c w)) =? 500)%Z eqn:E; cbn.
  - apply Z.eqb_eq in E. rewrite E. by destruct (w_written (Writer (c w))).
  - by destruct (w_written (Writer (c w))).
Qed.






(** The log line of a recovered fault on which the classifier returns:
    one line is added, with the elapsed time since the interceptor
    started, the method, the URL, the classification, the error, the
    dump and the stack, in this order. *)
Lemma RecoveryJSON_log_line
    (Next : HandlerFunc) (w w1 : World) (rec : any) (brokenPipe : bool) :
  Next w = Panicked rec w1 →
  isBrokenPipe (Some (asError rec)) = Some brokenPipe →
  ∃ wf,
    RecoveryJSON httputil.DumpRequest Next w = Returned wf ∧
    logs wf =
      (logs w1 ++
       [panicLine (clock w1 - clock w)
          (Method (Request_ (c w1))) (URL_String (URL (Request_ (c w1))))
          brokenPipe (asError rec)
          (dumpRequestSafe httputil.DumpRequest (Request_ (c w1)) w1).1
          (stack w1)])%list.
Proof.
  intros HN HB.
  destruct (dumpRequestSafe_httputil_frame (Request_ (c w1)) w1)
    as (redacted & grow & _ & HD & _).
  rewrite (RecoveryJSON_recovered _ _ _ _ _ _ _ _ HN HB HD), HD.
  eexists. split; [reflexivity |]. by destruct brokenPipe.
Qed.

(** The text of that line: the fields in the order of the claim,
    between the fixed parts of the format. *)
Lemma panicLine_text durationString elapsed method url brokenPipe err reqDump stack :
  Sprintf durationString
    (log_format (panicLine elapsed method url brokenPipe err reqDump stack))
    (log_args (panicLine elapsed method url brokenPipe err reqDump stack)) =
  "[PANIC] " ++ durationString elapsed ++ " | " ++ method ++ " " ++ url ++
  " | brokenPipe=" ++ (if brokenPipe then "true" else "false") ++
  " | err=" ++ fmt_v err ++ LF ++ "Request:" ++ LF ++ reqDump ++ LF ++
  "Stack:" ++ LF ++ stack.
Proof.
  rewrite <- (append_nil_r stack) at 3. reflexivity.
Qed.

(** C8 fails on [bareOpError]: [errors.As] finds the network error, its
    cause is nil, and the classifier goes on to [err.Error()], which
    dereferences the nil cause.  The deferred function panics before
    the call of [log.Printf]: the interceptor ends in a panic and the
    state, the log included, is the one the chain left. *)
Theorem RecoveryJSON_bare_OpError
    (D : Request → bool → M (string * option error)) (w : World) :
  errors_As bareOpError = Some (mkOpError "read" "tcp" None None None) ∧
  Error bareOpError = None ∧
  isBrokenPipe (Some bareOpError) = None ∧
  RecoveryJSON D (fun w => Panicked (any_error bareOpError) w) w =
    Panicked nilDereference w ∧
  logs (world_of (RecoveryJSON D (fun w => Panicked (any_error bareOpError) w) w)) =
    logs w.
Proof. done. Qed.

(** C7: when the dump of the snapshot fails with [err], the builder
    returns the text "could not dump request: " followed by the text of
    [err]; it returns as any call does, and the interceptor that
    called it goes on to its log line and returns. *)
Theorem dumpRequestSafe_dump_failure
    (D : Request → bool → M (string * option error))
    (r : Request) (w w1 w2 : World) (redacted : loc) (dump : string) (err : error) :
  redactedHeaders r w = (redacted, w1) →
  D (shallowCopy r redacted) false w1 = ((dump, Some err), w2) →
  dumpRequestSafe D r w = ("could not dump request: " ++ fmt_v err, w2) ∧
  ∀ (Next : HandlerFunc) (w0 : World) (rec : any) (brokenPipe : bool),
    Next w0 = Panicked rec w →
    Request_ (c w) = r →
    isBrokenPipe (Some (asError rec)) = Some brokenPipe →
    ∃ wf line,
      RecoveryJSON D Next w0 = Returned wf ∧
      logs wf = (logs w2 ++ [line])%list ∧
      log_args line !! 5%nat =
        Some (ArgString ("could not dump request: " ++ fmt_v err)).
Proof.
  intros HR HD.
  assert (dumpRequestSafe D r w = ("could not dump request: " ++ fmt_v err, w2)) as H.
  { by rewrite dumpRequestSafe_unfold, HR, HD. }
  split; [done |]. intros Next w0 rec brokenPipe HN Hr HB. subst r.
  rewrite (RecoveryJSON_recovered _ _ _ _ _ _ _ _ HN HB H).
  eexists _, _. split; [reflexivity |]. by destruct brokenPipe.
Qed.

Lemma dumpRequestSafe_dump_failure_witness :
  redactedHeaders exampleRequest exampleWorld =
    ((redactedHeaders exampleRequest exampleWorld).1,
     (redactedHeaders exampleRequest exampleWorld).2) ∧
  failingDump
    (shallowCopy exampleRequest (redactedHeaders exampleRequest exampleWorld).1)
    false (redactedHeaders exampleRequest exampleWorld).2 =
    (("", Some (errorString "unexpected EOF")),
     (redactedHeaders exampleRequest exampleWorld).2) ∧
  (dumpRequestSafe failingDump exampleRequest exampleWorld).1 =
    "could not dump request: unexpected EOF".
Proof.
  assert (redactedHeaders exampleRequest exampleWorld =
          ((redactedHeaders exampleRequest exampleWorld).1,
           (redactedHeaders exampleRequest exampleWorld).2)) as H1
    by (vm_compute; reflexivity).
  split; [exact H1 |]. split; [reflexivity |].
  destruct (dumpRequestSafe_dump_failure failingDump exampleRequest exampleWorld
              _ _ _ "" (errorString "unexpected EOF") H1 eq_refl) as [H _].
  rewrite H. reflexivity.
Defined.

(** ** The request is left as it was *)

(** Reading the body is visible in the model: the library's dump called
    with [body] true moves the read position of an unread body to its
    end. *)
Lemma DumpRequest_true_reads req w b st :
  Body req = Some b →
  bodies w !! b = Some st →
  (body_read st < String.length (body_data st))%nat →
  bodies (httputil.DumpRequest req true w).2 !! b ≠ bodies w !! b.
Proof.
  intros Hb Hst Hlt. unfold httputil.DumpRequest. rewrite Hb. cbv beta iota.
  rewrite Hst. cbn [snd bodies set_bodies].
  rewrite lookup_insert_eq. intros [= E]. rewrite <- E in Hlt. simpl in Hlt. lia.
Qed.

(** C5: the snapshot builder works on a copy.  The reference [redacted]
    of the snapshot's headers is one that the store did not hold; the
    snapshot shares the other fields of the request, the body
    reference included; the builder leaves every header map that the
    store held, the one of the request included, and the store of
    bodies, where a read would show, as they were.  The same holds of
    the interceptor, from the state in which the chain ended, whatever
    the chain did and whatever value it panicked with. *)
Theorem dumpRequestSafe_leaves_request
    (r : Request) (w : World) (Next : HandlerFunc) :
  (∃ redacted w1,
     redactedHeaders r w = (redacted, w1) ∧
     headers w !! redacted = None ∧
     Body (shallowCopy r redacted) = Body r ∧
     Header (shallowCopy r redacted) = redacted ∧
     dumpRequestSafe httputil.DumpRequest r w =
       (strings.TrimSpace (httputil.dumpHead r (headerAt w1 redacted)), w1) ∧
     headers w ⊆ headers w1 ∧
     headerAt w1 (Header r) = headerAt w (Header r) ∧
     bodies w1 = bodies w ∧
     c w1 = c w ∧ logs w1 = logs w) ∧
  headers (world_of (Next w)) ⊆
    headers (world_of (RecoveryJSON httputil.DumpRequest Next w)) ∧
  bodies (world_of (RecoveryJSON httputil.DumpRequest Next w)) =
    bodies (world_of (Next w)) ∧
  Request_ (c (world_of (RecoveryJSON httputil.DumpRequest Next w))) =
    Request_ (c (world_of (Next w))).
Proof.
  split.
  - destruct (redactedHeaders_spec r w) as (redacted & grow & H1 & H2 & H3 & H4 & H5).
    destruct (dumpRequestSafe_httputil_frame r w)
      as (redacted' & grow' & H1' & HD & Hfresh & Hsub & _).
    rewrite H1 in H1'. injection H1' as <- Hw.
    exists redacted, (set_headers grow w). split; [done |]. split; [done |].
    split; [done |]. split; [done |].
    split; [by apply dumpRequestSafe_httputil |].
    split; [| done].
    rewrite headers_set_headers. apply map_subseteq_spec. intros l m Hl.
    rewrite H3; [done | by exists m].
  - destruct (Next w) as [w1 | rec w1] eqn:HN.
    + unfold RecoveryJSON. by rewrite HN.
    + destruct (isBrokenPipe (Some (asError rec))) as [b|] eqn:HB.
      * destruct (dumpRequestSafe_httputil_frame (Request_ (c w1)) w1)
          as (redacted & grow & _ & HD & _ & Hsub & _).
        rewrite (RecoveryJSON_recovered _ _ _ _ _ _ _ _ HN HB HD).
        by destruct b.
      * by rewrite (RecoveryJSON_classifier_panics _ _ _ _ _ HN HB).
Qed.

(** ** Text of the dump *)

Lemma HasPrefix_spec s p : strings.HasPrefix s p = true ↔ ∃ post, s = p ++ post.
Proof.
  revert s. induction p as [|ch p IH]; intros s; simpl.
  - split; [by exists s | done].
  - destruct s as [|d s]; [split; [done | by intros [post [=]]] |].
    destruct (Ascii.eqb_spec d ch) as [-> | Hne].
    + rewrite IH. split; intros [post H]; exists post.
      * by rewrite append_cons, H.
      * rewrite append_cons in H. by injection H.
    + split; [done | intros [post H]; rewrite append_cons in H; congruence].
Qed.

Lemma Contains_spec s x : strings.Contains s x = true ↔ occurs x s.
Proof.
  unfold occurs. induction s as [|ch s IH]; simpl.
  - rewrite orb_false_r, HasPrefix_spec. split.
    + intros [post H]. by exists "", post.
    + intros (pre & post & H). destruct pre; [by exists post | done].
  - rewrite orb_true_iff, HasPrefix_spec, IH. split.
    + intros [[post H] | (pre & post & H)].
      * by exists "", post.
      * exists (String ch pre), post. simpl. by rewrite H.
    + intros (pre & post & H). destruct pre as [|d pre]; simpl in H.
      * left. by exists post.
      * right. injection H as _ H. by exists pre, post.
Qed.

Lemma occurs_refl x : occurs x x.
Proof. exists "", "". simpl. by rewrite append_nil_r. Qed.

Lemma occurs_app_l x a b : occurs x a → occurs x (a ++ b).
Proof.
  intros (pre & post & ->). exists pre, (post ++ b). by rewrite !append_assoc.
Qed.

Lemma occurs_app_r x a b : occurs x b → occurs x (a ++ b).
Proof.
  intros (pre & post & ->). exists (a ++ pre), post. by rewrite !append_assoc.
Qed.

Lemma occurs_trans x y s : occurs x y → occurs y s → occurs x s.
Proof.
  intros (p1 & q1 & ->) (p2 & q2 & ->).
  exists (p2 ++ p1), (q1 ++ q2). by rewrite !append_assoc.
Qed.

(** *** Decoding UTF-8 *)

Lemma length_append (a b : string) :
  String.length (a ++ b) = (String.length a + String.length b)%nat.
Proof. induction a as [|ch a IH]; [done |]. rewrite append_cons. simpl. by rewrite IH. Qed.

Lemma append_nil_l (a : string) : "" ++ a = a.
Proof. done. Qed.

Lemma accepts_cont b0 b1 : utf8.accepts b0 b1 = true → utf8.cont b1 = true.
Proof.
  unfold utf8.accepts, utf8.cont. rewrite !andb_true_iff, !Z.leb_le.
  repeat case_match; lia.
Qed.

Lemma cont_high b : utf8.cont b = true → (128 <=? b)%Z = true.
Proof. unfold utf8.cont. by intros [H _]%andb_true_iff. Qed.

Lemma size_cases b :
  utf8.size b = 0%nat ∨ utf8.size b = 1%nat ∨ utf8.size b = 2%nat ∨
  utf8.size b = 3%nat ∨ utf8.size b = 4%nat.
Proof. unfold utf8.size. repeat case_match; auto. Qed.

Lemma size_1 b : utf8.size b = 1%nat ↔ (b <? 128)%Z = true.
Proof. unfold utf8.size. repeat case_match; split; intros; try done; lia. Qed.

Lemma size_cont b : utf8.cont b = true → utf8.size b = 0%nat.
Proof.
  unfold utf8.cont, utf8.size. rewrite andb_true_iff, !Z.leb_le.
  intros [H1 H2]. repeat case_match; try done; lia.
Qed.

Lemma decode_ascii c s :
  (utf8.byte c <? 128)%Z = true →
  utf8.DecodeRuneInString (String c s) = (utf8.byte c, 1%nat).
Proof. intros H. apply size_1 in H. unfold utf8.DecodeRuneInString. by rewrite H. Qed.

Lemma decode_cont c s :
  utf8.cont (utf8.byte c) = true →
  utf8.DecodeRuneInString (String c s) = (utf8.RuneError, 1%nat).
Proof. intros H. apply size_cont in H. unfold utf8.DecodeRuneInString. by rewrite H. Qed.

Ltac decode_cases c0 :=
  unfold utf8.DecodeRuneInString;
  destruct (size_cases (utf8.byte c0)) as [E | [E | [E | [E | E]]]]; rewrite E.

(** The first rune of a text does not depend on what follows a place
    where a rune can start. *)
Lemma decode_app a t :
  a ≠ "" → startsRune t = true →
  utf8.DecodeRuneInString (a ++ t) = utf8.DecodeRuneInString a.
Proof.
  intros Ha Ht.
  assert (∀ b0 d t', t = String d t' → utf8.accepts b0 (utf8.byte d) = false) as Hacc.
  { intros b0 d t' ->. simpl in Ht. destruct (utf8.accepts b0 _) eqn:E; [| done].
    apply accepts_cont in E. by rewrite E in Ht. }
  assert (∀ d t', t = String d t' → utf8.cont (utf8.byte d) = false) as Hcont.
  { intros d t' ->. simpl in Ht. by apply negb_true_iff. }
  destruct a as [|c0 a]; [done |]. rewrite append_cons.
  decode_cases c0; try done.
  - destruct a as [|c1 a]; [| done]. rewrite append_nil_l.
    destruct t as [|d t']; [done |]. by rewrite (Hacc _ d t').
  - destruct a as [|c1 [|c2 a]]; rewrite ?append_cons, ?append_nil_l; try done.
    + destruct t as [|d [|d2 t']]; try done. by rewrite (Hacc _ d (String d2 t')).
    + destruct t as [|d t']; [done |]. rewrite (Hcont d t') by done.
      by rewrite andb_false_r.
  - destruct a as [|c1 [|c2 [|c3 a]]]; rewrite ?append_cons, ?append_nil_l; try done.
    + destruct t as [|d [|d2 [|d3 t']]]; try done.
      by rewrite (Hacc _ d (String d2 (String d3 t'))).
    + destruct t as [|d [|d2 t']]; try done.
      rewrite (Hcont d (String d2 t')) by done. by rewrite andb_false_r.
    + destruct t as [|d t']; [done |]. rewrite (Hcont d t') by done.
      by rewrite andb_false_r.
Qed.

(** A rune that is decoded from a valid encoding is decoded the same
    whatever follows. *)
Lemma decode_keep s b r w :
  utf8.DecodeRuneInString s = (r, w) →
  (r, w) ≠ (utf8.RuneError, 1%nat) → w ≠ 0%nat →
  utf8.DecodeRuneInString (s ++ b) = (r, w).
Proof.
  destruct s as [|c0 s]; [by intros [= <- <-] |]. rewrite append_cons.
  decode_cases c0; try done; try (by intros [= <- <-]).
  - destruct s as [|c1 s]; [by intros [= <- <-] |]. by rewrite append_cons.
  - destruct s as [|c1 [|c2 s]]; try (by intros [= <- <-]). by rewrite !append_cons.
  - destruct s as [|c1 [|c2 [|c3 s]]]; try (by intros [= <- <-]). by rewrite !append_cons.
Qed.

Lemma decode_width s r w :
  s ≠ "" → utf8.DecodeRuneInString s = (r, w) →
  (1 ≤ w ≤ String.length s)%nat.
Proof.
  destruct s as [|c0 s]; [done |]. intros _.
  decode_cases c0; try (intros [= <- <-]; simpl; lia).
  - destruct s as [|c1 s]; [intros [= <- <-]; simpl; lia |].
    case_match; intros [= <- <-]; simpl; lia.
  - destruct s as [|c1 [|c2 s]]; try (intros [= <- <-]; simpl; lia).
    case_match; intros [= <- <-]; simpl; lia.
  - destruct s as [|c1 [|c2 [|c3 s]]]; try (intros [= <- <-]; simpl; lia).
    case_match; intros [= <- <-]; simpl; lia.
Qed.

(** The bytes of a rune after the first are not ASCII. *)
Lemma decode_tail c0 s r w :
  utf8.DecodeRuneInString (String c0 s) = (r, w) → highPrefix (w - 1) s = true.
Proof.
  decode_cases c0; try (by intros [= <- <-]).
  - destruct s as [|c1 s]; [by intros [= <- <-] |].
    destruct (utf8.accepts _ _) eqn:A; intros [= <- <-]; [| done].
    simpl. by rewrite (cont_high _ (accepts_cont _ _ A)).
  - destruct s as [|c1 [|c2 s]]; try (by intros [= <- <-]).
    destruct (utf8.accepts _ _) eqn:A; [| by intros [= <- <-]].
    destruct (utf8.cont (utf8.byte c2)) eqn:B; intros [= <- <-]; [| done].
    simpl. by rewrite (cont_high _ (accepts_cont _ _ A)), (cont_high _ B).
  - destruct s as [|c1 [|c2 [|c3 s]]]; try (by intros [= <- <-]).
    destruct (utf8.accepts _ _) eqn:A; [| by intros [= <- <-]].
    destruct (utf8.cont (utf8.byte c2)) eqn:B; [| by intros [= <- <-]].
    destruct (utf8.cont (utf8.byte c3)) eqn:C; intros [= <- <-]; [| done].
    simpl. by rewrite (cont_high _ (accepts_cont _ _ A)), (cont_high _ B), (cont_high _ C).
Qed.

(** *** [strings.TrimSpace] *)

Lemma IsSpace_byte c :
  (utf8.byte c <? 128)%Z = true →
  unicode.IsSpace (utf8.byte c) = strings.isSpace c.
Proof. destruct c as [[] [] [] [] [] [] [] []]; by vm_compute. Qed.

Lemma isSpace_ascii c :
  strings.isSpace c = true → (utf8.byte c <? 128)%Z = true.
Proof. destruct c as [[] [] [] [] [] [] [] []]; by vm_compute. Qed.

Lemma plainByte_starts c s : plainByte c = true → startsRune (String c s) = true.
Proof. simpl. revert c. intros [[] [] [] [] [] [] [] []]; by vm_compute. Qed.

Lemma trimLeftFrom_cons c s :
  strings.trimLeftFrom 0 (String c s) =
  if unicode.IsSpace (utf8.DecodeRuneInString (String c s)).1
  then strings.trimLeftFrom ((utf8.DecodeRuneInString (String c s)).2 - 1) s
  else String c s.
Proof. cbn [strings.trimLeftFrom]. by destruct (utf8.DecodeRuneInString _). Qed.

Lemma trimLeftFrom_skip k c s :
  strings.trimLeftFrom (S k) (String c s) = strings.trimLeftFrom k s.
Proof. done. Qed.

Lemma TrimLeft_space c s :
  strings.isSpace c = true → strings.TrimLeft (String c s) = strings.TrimLeft s.
Proof.
  intros H. unfold strings.TrimLeft. pose proof (isSpace_ascii _ H) as Ha.
  rewrite trimLeftFrom_cons, (decode_ascii _ _ Ha). cbn [fst snd Nat.sub].
  by rewrite (IsSpace_byte _ Ha), H.
Qed.

Lemma TrimLeft_plain c s :
  plainByte c = true → strings.TrimLeft (String c s) = String c s.
Proof.
  intros H. unfold strings.TrimLeft. apply andb_true_iff in H as [Ha Hs].
  rewrite trimLeftFrom_cons, (decode_ascii _ _ Ha). cbn [fst snd].
  rewrite (IsSpace_byte _ Ha). by apply negb_true_iff in Hs as ->.
Qed.

(** Trimming on the left goes through a place where a rune starts. *)
Lemma trimLeftFrom_app k a t :
  (k ≤ String.length a)%nat → startsRune t = true →
  strings.trimLeftFrom k (a ++ t) =
  match strings.trimLeftFrom k a with
  | EmptyString => strings.TrimLeft t
  | u => u ++ t
  end.
Proof.
  intros Hk Ht. revert k Hk. induction a as [|c a IH]; intros k Hk.
  - simpl in Hk. by replace k with 0%nat by lia.
  - destruct k as [|k].
    + rewrite trimLeftFrom_cons. rewrite append_cons at 1. rewrite trimLeftFrom_cons.
      rewrite <- append_cons, decode_app by done.
      destruct (utf8.DecodeRuneInString (String c a)) as [r w] eqn:E.
      apply decode_width in E as [_ Hw]; [| done]. cbn [fst snd]. simpl in Hw.
      destruct (unicode.IsSpace r); [apply IH; lia | done].
    + rewrite append_cons, !trimLeftFrom_skip. apply IH. simpl in Hk. lia.
Qed.

Lemma hasPlain_app a b : hasPlain (a ++ b) = hasPlain a || hasPlain b.
Proof.
  induction a as [|ch a IH]; [done |]. rewrite append_cons. simpl.
  by rewrite IH, orb_assoc.
Qed.

(** White space holds no ASCII byte but the six of [strings.isSpace]. *)
Lemma trimLeftFrom_nil_plain k s :
  highPrefix k s = true → strings.trimLeftFrom k s = "" → hasPlain s = false.
Proof.
  revert k. induction s as [|c s IH]; intros k Hk H; [done |].
  destruct k as [|k].
  - rewrite trimLeftFrom_cons in H.
    destruct (utf8.DecodeRuneInString (String c s)) as [r w] eqn:E.
    cbn [fst snd] in H. destruct (unicode.IsSpace r) eqn:Hr; [| done].
    simpl. rewrite (IH _ (decode_tail _ _ _ _ E) H), orb_false_r.
    unfold plainByte. destruct (utf8.byte c <? 128)%Z eqn:Ha; [| done].
    rewrite (decode_ascii _ _ Ha) in E. injection E as <- <-.
    by rewrite <- (IsSpace_byte _ Ha), Hr.
  - simpl in Hk. apply andb_true_iff in Hk as [Hc Hk].
    rewrite trimLeftFrom_skip in H. simpl. rewrite (IH _ Hk H), orb_false_r.
    unfold plainByte. destruct (utf8.byte c <? 128)%Z eqn:Ha; [lia | done].
Qed.

Lemma TrimLeft_hasPlain s : hasPlain s = true → strings.TrimLeft s ≠ "".
Proof.
  intros H E. apply (trimLeftFrom_nil_plain 0) in E; [congruence | done].
Qed.

Lemma trimLeftFrom_first k s :
  strings.trimLeftFrom k s = "" ∨
  firstSolid (strings.trimLeftFrom k s) = true ∧
  strings.TrimLeft (strings.trimLeftFrom k s) = strings.trimLeftFrom k s.
Proof.
  revert k. induction s as [|c s IH]; intros k; [by left |].
  destruct k as [|k]; [| rewrite trimLeftFrom_skip; apply IH].
  rewrite trimLeftFrom_cons.
  destruct (unicode.IsSpace _) eqn:Hr; [apply IH |]. right. split.
  - simpl. destruct (strings.isSpace c) eqn:Hc; [| done].
    pose proof (isSpace_ascii _ Hc) as Ha.
    rewrite (decode_ascii _ _ Ha) in Hr. cbn [fst] in Hr.
    by rewrite (IsSpace_byte _ Ha), Hc in Hr.
  - unfold strings.TrimLeft. by rewrite trimLeftFrom_cons, Hr.
Qed.

(** *** Decoding backwards, and [strings.TrimRightFunc] *)

Lemma list_ascii_app a b :
  list_ascii_of_string (a ++ b) =
  (list_ascii_of_string a ++ list_ascii_of_string b)%list.
Proof. induction a as [|c a IH]; [done |]. rewrite append_cons. simpl. by rewrite IH. Qed.

Lemma string_of_list_app l1 l2 :
  string_of_list_ascii (l1 ++ l2) = string_of_list_ascii l1 ++ string_of_list_ascii l2.
Proof. induction l1 as [|c l1 IH]; [done |]. simpl. by rewrite IH. Qed.

Lemma backwards_app a b :
  utf8.backwards (a ++ b) = (utf8.backwards b ++ utf8.backwards a)%list.
Proof. unfold utf8.backwards. by rewrite list_ascii_app, rev_app_distr. Qed.

Lemma forwards_app l1 l2 :
  utf8.forwards (l1 ++ l2) = utf8.forwards l2 ++ utf8.forwards l1.
Proof. unfold utf8.forwards. by rewrite rev_app_distr, string_of_list_app. Qed.

Lemma forwards_backwards s : utf8.forwards (utf8.backwards s) = s.
Proof.
  unfold utf8.forwards, utf8.backwards.
  by rewrite rev_involutive, string_of_list_ascii_of_string.
Qed.

Lemma forwards_length l : String.length (utf8.forwards l) = length l.
Proof.
  unfold utf8.forwards. rewrite <- (length_rev l).
  induction (rev l) as [|c l' IH]; [done |]. simpl. by rewrite IH.
Qed.

Lemma backwards_split s k :
  s = utf8.forwards (drop k (utf8.backwards s)) ++
      utf8.forwards (take k (utf8.backwards s)).
Proof. by rewrite <- forwards_app, take_drop, forwards_backwards. Qed.

Lemma lastRuneSpan_bound rs :
  rs ≠ [] → (1 ≤ utf8.lastRuneSpan rs ≤ length rs)%nat.
Proof.
  destruct rs as [|c1 [|c2 [|c3 [|c4 [|c5 rs]]]]]; try done; intros _; simpl;
    repeat case_match; lia.
Qed.

Lemma decode_single c :
  (utf8.byte c <? 128)%Z = false →
  utf8.DecodeRuneInString (String c "") = (utf8.RuneError, 1%nat).
Proof.
  intros H. decode_cases c; try done. apply size_1 in E. congruence.
Qed.

(** The last rune, decoded backwards, is the first rune of the end of
    the text. *)
Lemma DecodeLast_inv s r size :
  s ≠ "" → utf8.DecodeLastRuneInString s = (r, size) →
  ∃ u e, s = u ++ e ∧ e ≠ "" ∧ String.length e = size ∧
         utf8.DecodeRuneInString e = (r, size).
Proof.
  intros Hs. unfold utf8.DecodeLastRuneInString.
  destruct (utf8.backwards s) as [|c1 rest] eqn:Hb.
  { exfalso. apply Hs. by rewrite <- (forwards_backwards s), Hb. }
  assert (s = utf8.forwards rest ++ String c1 "") as Hlast.
  { rewrite <- (forwards_backwards s), Hb.
    change (c1 :: rest) with ([c1] ++ rest)%list. by rewrite forwards_app. }
  destruct (utf8.byte c1 <? 128)%Z eqn:Ha.
  - intros [= <- <-]. exists (utf8.forwards rest), (String c1 "").
    split; [done |]. split; [done |]. split; [done |]. by apply decode_ascii.
  - cbv zeta. set (span := utf8.lastRuneSpan (c1 :: rest)).
    destruct (utf8.DecodeRuneInString _) as [r' size'] eqn:E.
    destruct (size' =? span)%nat eqn:Hsz.
    + intros [= <- <-]. apply Nat.eqb_eq in Hsz. subst size'.
      exists (utf8.forwards (drop span (c1 :: rest))),
             (utf8.forwards (take span (c1 :: rest))).
      pose proof (lastRuneSpan_bound (c1 :: rest) ltac:(done)) as Hspan.
      fold span in Hspan.
      assert (String.length (utf8.forwards (take span (c1 :: rest))) = span) as Hlen.
      { rewrite forwards_length, length_take. lia. }
      split; [rewrite <- Hb; apply backwards_split |].
      split; [| done]. intros E0. rewrite E0 in Hlen. simpl in Hlen. lia.
    + intros [= <- <-]. exists (utf8.forwards rest), (String c1 "").
      split; [done |]. split; [done |]. split; [done |]. by apply decode_single.
Qed.

Lemma size_RuneStart b :
  utf8.size b = 2%nat ∨ utf8.size b = 3%nat ∨ utf8.size b = 4%nat →
  utf8.RuneStart b = true ∧ (b <? 128)%Z = false.
Proof.
  unfold utf8.size, utf8.RuneStart, utf8.cont.
  repeat case_match; intros [? | [? | ?]]; try done; split; lia.
Qed.

Lemma cont_not_start b :
  utf8.cont b = true → utf8.RuneStart b = false ∧ (b <? 128)%Z = false.
Proof.
  unfold utf8.RuneStart. intros H. rewrite H. split; [done |].
  apply cont_high in H. lia.
Qed.

Lemma DecodeLast_unfold s c1 rest :
  utf8.backwards s = c1 :: rest → (utf8.byte c1 <? 128)%Z = false →
  utf8.DecodeLastRuneInString s =
  (if (snd (utf8.DecodeRuneInString
              (utf8.forwards (take (utf8.lastRuneSpan (c1 :: rest)) (c1 :: rest))))
       =? utf8.lastRuneSpan (c1 :: rest))%nat
   then utf8.DecodeRuneInString
          (utf8.forwards (take (utf8.lastRuneSpan (c1 :: rest)) (c1 :: rest)))
   else (utf8.RuneError, 1%nat)).
Proof.
  intros H1 H2. unfold utf8.DecodeLastRuneInString. rewrite H1, H2. cbv zeta.
  by destruct (utf8.DecodeRuneInString _).
Qed.

(** A valid encoding at the end of a text is decoded backwards as it is
    decoded forwards. *)
Lemma DecodeLast_app u e r :
  utf8.DecodeRuneInString e = (r, String.length e) →
  (r, String.length e) ≠ (utf8.RuneError, 1%nat) → e ≠ "" →
  utf8.DecodeLastRuneInString (u ++ e) = (r, String.length e).
Proof.
  intros He Hv Hne. destruct e as [|c0 e]; [done |].
  pose proof He as He'. revert He' Hv. decode_cases c0.
  - intros <-. done.
  - intros [= <- Hl]. destruct e; [| done]. intros _.
    apply size_1 in E. unfold utf8.DecodeLastRuneInString.
    rewrite backwards_app.
    change (utf8.backwards (String c0 "") ++ utf8.backwards u)%list
      with (c0 :: utf8.backwards u).
    cbv beta iota. by rewrite E.
  - destruct e as [|c1 e]; [intros <-; done |].
    destruct (utf8.accepts _ _) eqn:A; [| intros <-; done].
    intros [= _ Hl]. destruct e; [| done]. intros _.
    destruct (size_RuneStart _ (or_introl E)) as [S0 _].
    destruct (cont_not_start _ (accepts_cont _ _ A)) as [_ A1].
    assert (utf8.backwards (u ++ String c0 (String c1 "")) =
            c1 :: c0 :: utf8.backwards u) as Hb
      by (by rewrite backwards_app).
    rewrite (DecodeLast_unfold _ _ _ Hb A1).
    assert (utf8.lastRuneSpan (c1 :: c0 :: utf8.backwards u) = 2%nat) as ->
      by (unfold utf8.lastRuneSpan; by rewrite S0).
    change (utf8.forwards (take 2 (c1 :: c0 :: utf8.backwards u)))
      with (String c0 (String c1 "")).
    by rewrite He.
  - destruct e as [|c1 [|c2 e]]; try (intros <-; done).
    destruct (utf8.accepts _ _) eqn:A; [| intros <-; done].
    destruct (utf8.cont (utf8.byte c2)) eqn:B; [| intros <-; done].
    intros [= _ Hl]. destruct e; [| done]. intros _.
    destruct (size_RuneStart _ (or_intror (or_introl E))) as [S0 _].
    destruct (cont_not_start _ (accepts_cont _ _ A)) as [S1 _].
    destruct (cont_not_start _ B) as [_ A2].
    assert (utf8.backwards (u ++ String c0 (String c1 (String c2 ""))) =
            c2 :: c1 :: c0 :: utf8.backwards u) as Hb
      by (by rewrite backwards_app).
    rewrite (DecodeLast_unfold _ _ _ Hb A2).
    assert (utf8.lastRuneSpan (c2 :: c1 :: c0 :: utf8.backwards u) = 3%nat) as ->
      by (unfold utf8.lastRuneSpan; by rewrite S1, S0).
    change (utf8.forwards (take 3 (c2 :: c1 :: c0 :: utf8.backwards u)))
      with (String c0 (String c1 (String c2 ""))).
    by rewrite He.
  - destruct e as [|c1 [|c2 [|c3 e]]]; try (intros <-; done).
    destruct (utf8.accepts _ _) eqn:A; [| intros <-; done].
    destruct (utf8.cont (utf8.byte c2)) eqn:B; [| intros <-; done].
    destruct (utf8.cont (utf8.byte c3)) eqn:C; [| intros <-; done].
    intros [= _ Hl]. destruct e; [| done]. intros _.
    destruct (size_RuneStart _ (or_intror (or_intror E))) as [S0 _].
    destruct (cont_not_start _ (accepts_cont _ _ A)) as [S1 _].
    destruct (cont_not_start _ B) as [S2 _].
    destruct (cont_not_start _ C) as [_ A3].
    assert (utf8.backwards (u ++ String c0 (String c1 (String c2 (String c3 "")))) =
            c3 :: c2 :: c1 :: c0 :: utf8.backwards u) as Hb
      by (by rewrite backwards_app).
    rewrite (DecodeLast_unfold _ _ _ Hb A3).
    assert (utf8.lastRuneSpan (c3 :: c2 :: c1 :: c0 :: utf8.backwards u) = 4%nat) as ->
      by (unfold utf8.lastRuneSpan; by rewrite S2, S1, S0).
    change (utf8.forwards (take 4 (c3 :: c2 :: c1 :: c0 :: utf8.backwards u)))
      with (String c0 (String c1 (String c2 (String c3 "")))).
    by rewrite He.
Qed.

Lemma IsSpace_RuneError : unicode.IsSpace utf8.RuneError = false.
Proof. reflexivity. Qed.

(** The first rune of a text is the rune of its first bytes. *)
Lemma decode_prefix t r w :
  utf8.DecodeRuneInString t = (r, w) → t ≠ "" →
  (r, w) ≠ (utf8.RuneError, 1%nat) →
  ∃ e t2, t = e ++ t2 ∧ String.length e = w ∧
          utf8.DecodeRuneInString e = (r, w).
Proof.
  intros Ht Hne. destruct t as [|c0 t]; [done |]. clear Hne.
  revert Ht. decode_cases c0; try (by intros <-).
  - intros [= <- <-] _. exists (String c0 ""), t. split; [done |]. split; [done |].
    unfold utf8.DecodeRuneInString. by rewrite E.
  - destruct t as [|c1 t]; [by intros <- |].
    destruct (utf8.accepts _ _) eqn:A; [| by intros <-].
    intros [= <- <-] _. exists (String c0 (String c1 "")), t.
    split; [done |]. split; [done |].
    unfold utf8.DecodeRuneInString. by rewrite E, A.
  - destruct t as [|c1 [|c2 t]]; try (by intros <-).
    destruct (utf8.accepts _ _) eqn:A; [| by intros <-].
    destruct (utf8.cont (utf8.byte c2)) eqn:B; [| by intros <-].
    intros [= <- <-] _. exists (String c0 (String c1 (String c2 ""))), t.
    split; [done |]. split; [done |].
    unfold utf8.DecodeRuneInString. by rewrite E, A, B.
  - destruct t as [|c1 [|c2 [|c3 t]]]; try (by intros <-).
    destruct (utf8.accepts _ _) eqn:A; [| by intros <-].
    destruct (utf8.cont (utf8.byte c2)) eqn:B; [| by intros <-].
    destruct (utf8.cont (utf8.byte c3)) eqn:C; [| by intros <-].
    intros [= <- <-] _. exists (String c0 (String c1 (String c2 (String c3 "")))), t.
    split; [done |]. split; [done |].
    unfold utf8.DecodeRuneInString. by rewrite E, A, B, C.
Qed.

Lemma trimLeftFrom_skip_app e t :
  strings.trimLeftFrom (String.length e) (e ++ t) = strings.TrimLeft t.
Proof. induction e as [|c e IH]; [by destruct t |]. by rewrite append_cons. Qed.

(** An encoding of a white-space rune is removed by [strings.TrimLeft]. *)
Lemma TrimLeft_rune e t r :
  utf8.DecodeRuneInString e = (r, String.length e) → e ≠ "" →
  unicode.IsSpace r = true → startsRune t = true →
  strings.TrimLeft (e ++ t) = strings.TrimLeft t ∧ startsRune (e ++ t) = true.
Proof.
  intros He Hne Hr Ht. destruct e as [|c e]; [done |]. split.
  - unfold strings.TrimLeft at 1. rewrite append_cons, trimLeftFrom_cons.
    rewrite <- append_cons, decode_app, He by done. cbn [fst snd].
    rewrite Hr. simpl. rewrite Nat.sub_0_r. apply trimLeftFrom_skip_app.
  - rewrite append_cons. simpl. destruct (utf8.cont (utf8.byte c)) eqn:E; [| done].
    rewrite (decode_cont _ _ E) in He. injection He as <- _.
    by rewrite IsSpace_RuneError in Hr.
Qed.

(** A text that is white space begins with the encoding of a
    white-space rune. *)
Lemma TrimLeft_nil_first t :
  strings.TrimLeft t = "" → t ≠ "" →
  ∃ e t2 r, t = e ++ t2 ∧ e ≠ "" ∧
            utf8.DecodeRuneInString e = (r, String.length e) ∧
            unicode.IsSpace r = true ∧ strings.TrimLeft t2 = "".
Proof.
  intros Ht Hne. destruct t as [|c t]; [done |].
  unfold strings.TrimLeft in Ht. rewrite trimLeftFrom_cons in Ht.
  destruct (utf8.DecodeRuneInString (String c t)) as [r w] eqn:E.
  cbn [fst snd] in Ht. destruct (unicode.IsSpace r) eqn:Hr; [| done].
  destruct (decode_prefix _ _ _ E Hne) as (e & t2 & Heq & Hlen & He).
  { intros [= -> ->]. by rewrite IsSpace_RuneError in Hr. }
  exists e, t2, r. split; [done |].
  destruct e as [|c' e].
  { change (utf8.DecodeRuneInString "") with (utf8.RuneError, 0%nat) in He.
    injection He as <- _. by rewrite IsSpace_RuneError in Hr. }
  split; [done |]. rewrite Hlen. split; [done |]. split; [done |].
  rewrite append_cons in Heq. injection Heq as -> ->.
  simpl in Hlen. subst w. simpl in Ht. rewrite Nat.sub_0_r in Ht.
  by rewrite trimLeftFrom_skip_app in Ht.
Qed.

(** A text that is white space ends with the encoding of a white-space
    rune. *)
Lemma TrimLeft_nil_last n t :
  (String.length t ≤ n)%nat → strings.TrimLeft t = "" → t ≠ "" →
  ∃ t' e r, t = t' ++ e ∧ e ≠ "" ∧
            utf8.DecodeRuneInString e = (r, String.length e) ∧
            unicode.IsSpace r = true.
Proof.
  revert t. induction n as [|n IH]; intros t Hn Ht Hne.
  { destruct t; [done | simpl in Hn; lia]. }
  destruct (TrimLeft_nil_first t Ht Hne) as (e & t2 & r & -> & He0 & He & Hr & Ht2).
  destruct t2 as [|c2 t2].
  - exists "", e, r. by rewrite append_nil_r.
  - destruct (IH (String c2 t2)) as (t' & e' & r' & Heq & ? & ? & ?); try done.
    + rewrite length_append in Hn. destruct e; [done |]. simpl in Hn |- *. lia.
    + exists (e ++ t'), e', r'. rewrite Heq. by rewrite append_assoc.
Qed.

Lemma withoutSpaces_cons c s :
  withoutSpaces (String c s) =
  match strings.TrimLeft (String c s) with
  | EmptyString => EmptyString
  | _ => String c (withoutSpaces s)
  end.
Proof. done. Qed.

Lemma withoutSpaces_app a post :
  startsRune post = true → strings.TrimLeft post = "" →
  withoutSpaces (a ++ post) = withoutSpaces a.
Proof.
  intros Hp Hs. induction a as [|c a IH].
  - rewrite append_nil_l. destruct post as [|d post]; [done |].
    by rewrite withoutSpaces_cons, Hs.
  - rewrite append_cons, withoutSpaces_cons, <- append_cons.
    unfold strings.TrimLeft at 1. rewrite trimLeftFrom_app by (done || lia).
    fold (strings.TrimLeft (String c a)). rewrite IH, withoutSpaces_cons, Hs.
    by destruct (strings.TrimLeft (String c a)).
Qed.

Lemma withoutSpaces_id u :
  (∀ p t, u = p ++ t → t ≠ "" → strings.TrimLeft t ≠ "") → withoutSpaces u = u.
Proof.
  induction u as [|c u IH]; intros H; [done |].
  rewrite withoutSpaces_cons.
  pose proof (H "" (String c u) eq_refl ltac:(done)) as Hc.
  destruct (strings.TrimLeft (String c u)); [done |].
  rewrite IH; [done |]. intros p t -> Ht. by apply (H (String c p) t).
Qed.

(** *** Slices *)

Lemma upTo_app u t : strings.upTo (String.length u) (u ++ t) = u.
Proof.
  unfold strings.upTo. induction u as [|c u IH]; [by destruct t |].
  rewrite append_cons. simpl. by rewrite IH.
Qed.

Lemma upTo_app_more u t k :
  strings.upTo (String.length u + k) (u ++ t) = u ++ strings.upTo k t.
Proof.
  unfold strings.upTo. induction u as [|c u IH]; [done |].
  rewrite !append_cons. simpl. by rewrite IH.
Qed.

Lemma upTo_all e : strings.upTo (String.length e) e = e.
Proof. rewrite <- (append_nil_r e) at 2. rewrite upTo_app. done. Qed.

Lemma upTo_prefix e t : strings.upTo (String.length e) (e ++ t) = e.
Proof. apply upTo_app. Qed.

Lemma get_app u c t : String.get (String.length u) (u ++ String c t) = Some c.
Proof. induction u as [|d u IH]; [done |]. by rewrite append_cons. Qed.

Lemma from_app u t : strings.from (String.length u) (u ++ t) = t.
Proof.
  unfold strings.from. rewrite length_append.
  replace (String.length u + String.length t - String.length u)%nat
    with (String.length t) by lia.
  induction u as [|d u IH]; [apply upTo_all | by rewrite append_cons].
Qed.

(** *** The loop of [strings.TrimRightFunc] *)

Lemma lastIndexFunc_spec fuel u t :
  (String.length u ≤ fuel)%nat → startsRune t = true → strings.TrimLeft t = "" →
  match strings.lastIndexFunc fuel (u ++ t) (String.length u) with
  | Some i =>
      match String.get i (u ++ t) with
      | Some c =>
          if (128 <=? utf8.byte c)%Z
          then strings.upTo
                 (i + (utf8.DecodeRuneInString (strings.from i (u ++ t))).2) (u ++ t)
          else strings.upTo (i + 1) (u ++ t)
      | None => strings.upTo (i + 1) (u ++ t)
      end
  | None => EmptyString
  end = withoutSpaces u.
Proof.
  revert u t. induction fuel as [|fuel IH]; intros u t Hf Ht Hs.
  { destruct u; [done | simpl in Hf; lia]. }
  cbn [strings.lastIndexFunc].
  destruct (String.length u =? 0)%nat eqn:Hz.
  { apply Nat.eqb_eq in Hz. by destruct u. }
  assert (u ≠ "") as Hne by (intros ->; done).
  rewrite upTo_app.
  destruct (utf8.DecodeLastRuneInString u) as [r size] eqn:HL.
  destruct (DecodeLast_inv _ _ _ Hne HL) as (u' & e & -> & He0 & Hlen & He).
  assert (String.length (u' ++ e) - size = String.length u')%nat as ->
    by (rewrite length_append; lia).
  rewrite <- Hlen in He. rewrite append_assoc.
  destruct (unicode.IsSpace r) eqn:Hr.
  - destruct (TrimLeft_rune e t r He He0 Hr Ht) as [H1 H2].
    rewrite IH; [| rewrite length_append in Hf; destruct e; [done | simpl in Hf; lia]
                 | done | by rewrite H1].
    symmetry. apply withoutSpaces_app.
    + destruct (TrimLeft_rune e "" r He He0 Hr eq_refl) as [_ H]. by rewrite append_nil_r in H.
    + destruct (TrimLeft_rune e "" r He He0 Hr eq_refl) as [H _]. by rewrite append_nil_r in H.
  - assert (withoutSpaces (u' ++ e) = u' ++ e) as ->.
    { apply withoutSpaces_id. intros p t' Hu Ht' Hnil.
      destruct (TrimLeft_nil_last _ t' (le_n _) Hnil Ht') as (t'' & e2 & r2 & -> & ? & He2 & Hr2).
      rewrite Hu, <- append_assoc in HL.
      rewrite (DecodeLast_app _ e2 r2) in HL; try done.
      - injection HL as <- _. congruence.
      - intros [= -> _]. by rewrite IsSpace_RuneError in Hr2. }
    destruct e as [|c e]; [done |]. rewrite append_cons, get_app, <- append_cons.
    destruct (128 <=? utf8.byte c)%Z eqn:Hc.
    + rewrite from_app, decode_app, He by done. cbn [snd].
      by rewrite upTo_app_more, upTo_app.
    + rewrite decode_ascii in He by lia. injection He as _ Hl.
      rewrite upTo_app_more. destruct e; [| done]. by destruct t.
Qed.

(** [strings.TrimRightFunc] removes the longest suffix of white
    space. *)
Lemma TrimRight_spec s : strings.TrimRight s = withoutSpaces s.
Proof.
  pose proof (lastIndexFunc_spec (String.length s) s "" (le_n _) eq_refl eq_refl) as H.
  rewrite append_nil_r in H. exact H.
Qed.

Lemma TrimRight_cons c s :
  strings.TrimRight (String c s) =
  match strings.TrimLeft (String c s) with
  | EmptyString => EmptyString
  | _ => String c (strings.TrimRight s)
  end.
Proof. by rewrite !TrimRight_spec. Qed.

Lemma TrimRight_cons_keep c s :
  strings.TrimLeft (String c s) ≠ "" →
  strings.TrimRight (String c s) = String c (strings.TrimRight s).
Proof. intros H. rewrite TrimRight_cons. by destruct (strings.TrimLeft (String c s)). Qed.

Lemma TrimRight_nil s : strings.TrimLeft s = "" → strings.TrimRight s = "".
Proof. destruct s as [|c s]; [done |]. intros H. by rewrite TrimRight_cons, H. Qed.

Lemma TrimRight_nil_inv s : strings.TrimRight s = "" → strings.TrimLeft s = "".
Proof.
  destruct s as [|c s]; [done |]. rewrite TrimRight_cons.
  by destruct (strings.TrimLeft (String c s)).
Qed.

(** Nothing is removed before an ASCII byte that is not white space. *)
Lemma TrimRight_app_plain a x :
  hasPlain x = true → strings.TrimRight (a ++ x) = a ++ strings.TrimRight x.
Proof.
  intros Hx. induction a as [|c a IH]; [done |].
  rewrite !append_cons, TrimRight_cons_keep, IH; [done |].
  apply TrimLeft_hasPlain. simpl. by rewrite hasPlain_app, Hx, !orb_true_r.
Qed.

(** Trimming on the right stops in what follows a place where a rune
    starts, or removes all of it. *)
Lemma TrimRight_app a post :
  startsRune post = true →
  strings.TrimRight (a ++ post) =
  match strings.TrimLeft post with
  | EmptyString => strings.TrimRight a
  | _ => a ++ strings.TrimRight post
  end.
Proof.
  intros Hp. induction a as [|c a IH].
  - rewrite append_nil_l. destruct (strings.TrimLeft post) eqn:E; [| done].
    by apply TrimRight_nil.
  - rewrite append_cons, TrimRight_cons, <- append_cons.
    unfold strings.TrimLeft at 1. rewrite trimLeftFrom_app by (done || lia).
    fold (strings.TrimLeft (String c a)). rewrite IH, TrimRight_cons.
    destruct (strings.TrimLeft post) eqn:Ep.
    + by destruct (strings.TrimLeft (String c a)).
    + by destruct (strings.TrimLeft (String c a)).
Qed.

Lemma TrimRight_prefix x : ∃ t, x = strings.TrimRight x ++ t.
Proof.
  induction x as [|c x [t IH]]; [by exists "" |].
  rewrite TrimRight_cons. destruct (strings.TrimLeft (String c x)).
  - by exists (String c x).
  - exists t. by rewrite append_cons, <- IH.
Qed.

Lemma firstPlain_hasPlain x : firstPlain x = true → hasPlain x = true.
Proof. destruct x as [|c x]; [done |]. simpl. by intros ->. Qed.

Lemma lastPlain_split x :
  lastPlain x = true → ∃ x0 ch, x = x0 ++ String ch "" ∧ plainByte ch = true.
Proof.
  induction x as [|d x IH]; [done |].
  destruct x as [|e x].
  - simpl. intros H. by exists "", d.
  - intros H. destruct (IH H) as (x0 & ch & E & Hch).
    exists (String d x0), ch. split; [| done]. by rewrite append_cons, <- E.
Qed.

Lemma TrimRight_lastPlain x : lastPlain x = true → strings.TrimRight x = x.
Proof.
  intros H. destruct (lastPlain_split x H) as (x0 & ch & -> & Hch).
  rewrite TrimRight_app_plain by (simpl; by rewrite Hch).
  by rewrite TrimRight_cons_keep by (by rewrite TrimLeft_plain).
Qed.

Lemma TrimRight_last t :
  strings.TrimRight t = "" ∨ lastSolid (strings.TrimRight t) = true.
Proof.
  induction t as [|c t IH]; [by left |].
  rewrite TrimRight_cons. destruct (strings.TrimLeft (String c t)) eqn:E; [by left |].
  right. destruct IH as [IH | IH].
  - rewrite IH. simpl. destruct (strings.isSpace c) eqn:Hc; [| done].
    rewrite (TrimLeft_space _ _ Hc), (TrimRight_nil_inv _ IH) in E. done.
  - destruct (strings.TrimRight t); [done | exact IH].
Qed.

(** What [strings.TrimSpace] returns is empty, or begins and ends with
    a byte that is not ASCII white space. *)
Lemma TrimSpace_solid s :
  strings.TrimSpace s = "" ∨
  firstSolid (strings.TrimSpace s) = true ∧ lastSolid (strings.TrimSpace s) = true.
Proof.
  unfold strings.TrimSpace. change (strings.TrimLeft s) with (strings.trimLeftFrom 0 s).
  destruct (trimLeftFrom_first 0 s) as [-> | [Hf Hfix]]; [by left |].
  destruct (strings.trimLeftFrom 0 s) as [|c t]; [done |]. right.
  assert (strings.TrimRight (String c t) = String c (strings.TrimRight t)) as E.
  { apply TrimRight_cons_keep. by rewrite Hfix. }
  split; [by rewrite E |].
  destruct (TrimRight_last (String c t)) as [E' | H]; [| done].
  by rewrite E in E'.
Qed.

(** Trimming on the left keeps everything from an ASCII byte that is not
    white space. *)
Lemma TrimLeft_keeps pre x :
  firstPlain x = true → ∃ pre', strings.TrimLeft (pre ++ x) = pre' ++ x.
Proof.
  intros Hx. destruct x as [|c x]; [done |]. simpl in Hx.
  unfold strings.TrimLeft.
  rewrite trimLeftFrom_app by (lia || by apply plainByte_starts).
  destruct (strings.trimLeftFrom 0 pre) as [|d u].
  - exists "". by rewrite TrimLeft_plain.
  - by exists (String d u).
Qed.

(** A line that begins with an ASCII byte that is not white space, and
    is followed by an ASCII byte, is kept by [strings.TrimSpace] up to
    the white space at its end. *)
Lemma TrimSpace_line x d s :
  firstPlain x = true → (utf8.byte d <? 128)%Z = true →
  occurs (x ++ String d "") s →
  occurs (strings.TrimRight x) (strings.TrimSpace s).
Proof.
  intros Hx Hd (pre & post & ->). unfold strings.TrimSpace.
  assert (pre ++ (x ++ String d "") ++ post = pre ++ x ++ String d post) as ->
    by (by rewrite !append_assoc).
  assert (firstPlain (x ++ String d post) = true) as Hx' by (by destruct x).
  destruct (TrimLeft_keeps pre _ Hx') as [pre' ->].
  rewrite <- append_assoc, TrimRight_app.
  - destruct (strings.TrimLeft (String d post)).
    + rewrite TrimRight_app_plain by (by apply firstPlain_hasPlain).
      apply occurs_app_r, occurs_refl.
    + apply occurs_app_l, occurs_app_r.
      destruct (TrimRight_prefix x) as [t Ht]. rewrite Ht at 2.
      apply occurs_app_l, occurs_refl.
  - simpl. unfold utf8.cont. apply negb_true_iff, andb_false_iff. left. lia.
Qed.

(** An occurrence that begins and ends with an ASCII byte that is not
    white space is kept by [strings.TrimSpace]. *)
Lemma TrimSpace_occurs x s :
  firstPlain x = true → lastPlain x = true →
  occurs x s → occurs x (strings.TrimSpace s).
Proof.
  intros Hf Hl (pre & post & ->). unfold strings.TrimSpace.
  assert (firstPlain (x ++ post) = true) as Hx' by (by destruct x).
  destruct (TrimLeft_keeps pre _ Hx') as [pre' ->].
  destruct (lastPlain_split x Hl) as (x0 & ch & -> & Hch).
  assert (pre' ++ (x0 ++ String ch "") ++ post = (pre' ++ x0) ++ String ch post) as ->
    by (by rewrite !append_assoc).
  rewrite TrimRight_app_plain by (simpl; by rewrite Hch).
  rewrite TrimRight_cons_keep by (by rewrite TrimLeft_plain).
  exists pre', (strings.TrimRight post). by rewrite !append_assoc.
Qed.

Lemma writeValues_occurs key vs v :
  v ∈ vs → occurs (key ++ ": " ++ wireValue v ++ CRLF) (httputil.writeValues key vs).
Proof.
  induction vs as [|v0 vs IH]; intros Hin; [inversion Hin |].
  change (httputil.writeValues key (v0 :: vs))
    with (key ++ ": " ++ wireValue v0 ++ CRLF ++ httputil.writeValues key vs).
  apply elem_of_cons in Hin as [-> | Hin].
  - exists "", (httputil.writeValues key vs). by rewrite !append_assoc.
  - do 4 apply occurs_app_r. by apply IH.
Qed.

Lemma foldr_occurs (l : list (string * list string)) kv :
  kv ∈ l →
  httputil.ValidHeaderFieldName kv.1 = true →
  occurs (httputil.writeValues kv.1 kv.2)
    (foldr (fun kv out =>
              if httputil.ValidHeaderFieldName kv.1
              then httputil.writeValues kv.1 kv.2 ++ out
              else out) "" l).
Proof.
  intros Hin Hv. induction l as [|kv0 l IH]; [inversion Hin |].
  cbn [foldr]. apply elem_of_cons in Hin as [<- | Hin].
  - rewrite Hv. apply occurs_app_l, occurs_refl.
  - destruct (httputil.ValidHeaderFieldName kv0.1); [apply occurs_app_r |]; by apply IH.
Qed.

Lemma WriteSubset_occurs (h : HeaderMap) exclude k vs :
  h !! k = Some vs →
  k ∉ exclude →
  httputil.ValidHeaderFieldName k = true →
  occurs (httputil.writeValues k vs) (httputil.WriteSubset h exclude).
Proof.
  intros Hk Hex Hv. unfold httputil.WriteSubset.
  apply (foldr_occurs _ (k, vs)); [| done].
  unfold httputil.sortedKeyValues. rewrite merge_sort_Permutation.
  apply list_elem_of_filter. split; [done |]. by apply elem_of_map_to_list.
Qed.

Lemma dumpHead_occurs req h x :
  occurs x (httputil.WriteSubset h httputil.reqWriteExcludeHeaderDump) →
  occurs x (httputil.dumpHead req h).
Proof.
  intros H. unfold httputil.dumpHead. cbv zeta.
  do 10 apply occurs_app_r. by apply occurs_app_l.
Qed.

Lemma validName_firstPlain k :
  httputil.ValidHeaderFieldName k = true → firstPlain k = true.
Proof.
  unfold httputil.ValidHeaderFieldName. destruct k as [|ch k]; [done |].
  simpl. intros [Hch _]%andb_true_iff. revert Hch. generalize ch.
  intros [[] [] [] [] [] [] [] []]; by vm_compute.
Qed.

Lemma sensitiveHeaders_written h :
  h ∈ sensitiveHeaders →
  (h ∉ httputil.reqWriteExcludeHeaderDump) ∧
  httputil.ValidHeaderFieldName h = true.
Proof.
  unfold sensitiveHeaders. intros H.
  repeat (apply elem_of_cons in H; destruct H as [H | H];
          [subst h; split;
           [apply (bool_decide_unpack _); by vm_compute | by vm_compute] |]).
  inversion H.
Qed.

Lemma lastPlain_app a b : lastPlain b = true → lastPlain (a ++ b) = true.
Proof.
  intros Hb. induction a as [|d a IH]; [done |].
  rewrite append_cons. destruct (a ++ b) eqn:E; [| done].
  destruct a; [| discriminate E]. change ("" ++ b) with b in E. by subst b.
Qed.

(** A value of a header that is written has its line in the trimmed
    dump, up to the white space at the end of the line, which the final
    trimming removes when the line is the last one; the line is there
    in full when the wire form of the value ends with an ASCII byte
    that is not white space. *)
Lemma dump_line_occurs req (m : HeaderMap) k vs v :
  m !! k = Some vs →
  v ∈ vs →
  k ∉ httputil.reqWriteExcludeHeaderDump →
  httputil.ValidHeaderFieldName k = true →
  strings.Contains (strings.TrimSpace (httputil.dumpHead req m))
    (strings.TrimRight (k ++ ": " ++ wireValue v)) = true ∧
  (lastPlain (wireValue v) = true →
   strings.Contains (strings.TrimSpace (httputil.dumpHead req m))
     (k ++ ": " ++ wireValue v) = true).
Proof.
  intros Hk Hv Hex Hval.
  assert (strings.Contains (strings.TrimSpace (httputil.dumpHead req m))
            (strings.TrimRight (k ++ ": " ++ wireValue v)) = true) as H.
  { apply Contains_spec, (TrimSpace_line _ (ascii_of_nat 13)).
    - apply validName_firstPlain in Hval. by destruct k.
    - reflexivity.
    - apply dumpHead_occurs.
      eapply occurs_trans; [| by eapply WriteSubset_occurs].
      eapply occurs_trans; [| by apply writeValues_occurs].
      exists "", LF. by rewrite !append_assoc. }
  split; [done |]. intros Hl.
  rewrite TrimRight_lastPlain in H; [done |]. by do 2 apply lastPlain_app.
Qed.

(** The snapshot, entry by entry, and the dump made of it. *)
Lemma snapshot_entries r w :
  ∃ redacted w1,
    redactedHeaders r w = (redacted, w1) ∧
    dumpRequestSafe httputil.DumpRequest r w =
      (strings.TrimSpace (httputil.dumpHead r (headerAt w1 redacted)), w1) ∧
    ∀ k, headerAt w1 redacted !! k =
         if decide (k ∈ sensitiveHeaders)
         then redactEntry (headerAt w (Header r) !! k)
         else headerAt w (Header r) !! k.
Proof.
  destruct (redactedHeaders_spec r w) as (redacted & grow & H1 & H2 & _).
  exists redacted, (set_headers grow w). split; [done |].
  split; [by apply dumpRequestSafe_httputil |].
  intros k. rewrite H2. apply redact_lookup.
Qed.

Lemma REDACTED_wire : wireValue REDACTED = REDACTED ∧ lastPlain REDACTED = true.
Proof. by vm_compute. Qed.

(** C4, as stated, fails, at two requests.  With two Cookie lines of
    which the first is empty, the header has the value "session=abc",
    no marker takes its place and the dump prints it.  With the token
    of the Authorization header also in the query, the header is
    redacted and the dump still contains the token, in the request
    line. *)
Lemma dumpRequestSafe_shows_secret :
  (headerAt twoCookiesWorld (Header exampleRequest) !! "Cookie"
     = Some [""; "session=abc"] ∧
   strings.Contains
     (dumpRequestSafe httputil.DumpRequest exampleRequest twoCookiesWorld).1
     "Cookie: session=abc" = true ∧
   strings.Contains
     (dumpRequestSafe httputil.DumpRequest exampleRequest twoCookiesWorld).1
     "***REDACTED***" = false) ∧
  (headerAt exampleWorld (Header tokenRequest) !! "Authorization"
     = Some ["secret123"] ∧
   strings.Contains
     (dumpRequestSafe httputil.DumpRequest tokenRequest exampleWorld).1
     "Authorization: ***REDACTED***" = true ∧
   strings.Contains
     (dumpRequestSafe httputil.DumpRequest tokenRequest exampleWorld).1
     "secret123" = true).
Proof. by vm_compute. Qed.

(** C4, amended: for a sensitive header, stored under its canonical
    name, whose first value is not empty, the entry of the snapshot is
    the marker alone, so that none of the values of the header is left
    in it, and the dump has the line of the header with the marker; a
    sensitive header whose only value is the empty string is left as it
    is. *)
Theorem dumpRequestSafe_redacts
    (r : Request) (w : World) (h v : string) (vs : list string) :
  h ∈ sensitiveHeaders →
  headerAt w (Header r) !! h = Some (v :: vs) →
  (v = "" → vs = []) →
  ∃ redacted w1 dump,
    redactedHeaders r w = (redacted, w1) ∧
    dumpRequestSafe httputil.DumpRequest r w = (dump, w1) ∧
    if String.eqb v "" then headerAt w1 redacted !! h = Some [""]
    else headerAt w1 redacted !! h = Some ["***REDACTED***"] ∧
         strings.Contains dump (h ++ ": ***REDACTED***") = true.
Proof.
  intros Hh Hv Hvs.
  destruct (snapshot_entries r w) as (redacted & w1 & H1 & H2 & H3).
  exists redacted, w1, (strings.TrimSpace (httputil.dumpHead r (headerAt w1 redacted))).
  split; [done |]. split; [done |].
  specialize (H3 h). rewrite decide_True, Hv in H3 by done. simpl in H3.
  destruct (String.eqb_spec v "") as [-> | Hne].
  - by rewrite H3, Hvs.
  - split; [done |].
    destruct (sensitiveHeaders_written h Hh) as (Hex & Hval).
    destruct REDACTED_wire as [Hw Hl].
    rewrite <- Hw at 1.
    by apply (dump_line_occurs _ _ h [REDACTED] REDACTED);
      first [done | apply list_elem_of_here].
Qed.

Lemma dumpRequestSafe_redacts_witness :
  "Authorization" ∈ sensitiveHeaders ∧
  headerAt exampleWorld (Header exampleRequest) !! "Authorization"
    = Some ["secret123"] ∧
  ("secret123" = "" → @nil string = []) ∧
  strings.Contains
    (dumpRequestSafe httputil.DumpRequest exampleRequest exampleWorld).1
    "Authorization: ***REDACTED***" = true.
Proof.
  assert ("Authorization" ∈ sensitiveHeaders) as H1
    by (apply (bool_decide_unpack _); by vm_compute).
  split; [exact H1 |]. split; [reflexivity |]. split; [reflexivity |].
  destruct (dumpRequestSafe_redacts exampleRequest exampleWorld
              "Authorization" "secret123" [] H1 eq_refl (fun _ => eq_refl))
    as (redacted & w1 & dump & _ & H2 & H3).
  rewrite H2. simpl in H3. apply H3.
Defined.

(** C9: for a sensitive header with values [v :: vs], the first value
    [v] decides.  When [v] is empty the entry of the snapshot is the
    list of values as it was, and the dump prints each of the other
    values on a line of the header: the line is in the dump up to the
    white space at its end, and in full when the wire form of the value
    ends with an ASCII byte that is not white space.  When [v] is not
    empty the entry is the marker alone, whatever the number of values,
    and the dump has the line of the header with the marker. *)
Theorem dumpRequestSafe_first_value_decides
    (r : Request) (w : World) (h v : string) (vs : list string) :
  h ∈ sensitiveHeaders →
  headerAt w (Header r) !! h = Some (v :: vs) →
  ∃ redacted w1 dump,
    redactedHeaders r w = (redacted, w1) ∧
    dumpRequestSafe httputil.DumpRequest r w = (dump, w1) ∧
    (v = "" →
     headerAt w1 redacted !! h = Some (v :: vs) ∧
     ∀ v', v' ∈ vs →
           strings.Contains dump (strings.TrimRight (h ++ ": " ++ wireValue v')) = true ∧
           (lastPlain (wireValue v') = true →
            strings.Contains dump (h ++ ": " ++ wireValue v') = true)) ∧
    (v ≠ "" →
     headerAt w1 redacted !! h = Some ["***REDACTED***"] ∧
     strings.Contains dump (h ++ ": ***REDACTED***") = true).
Proof.
  intros Hh Hv.
  destruct (snapshot_entries r w) as (redacted & w1 & H1 & H2 & H3).
  exists redacted, w1, (strings.TrimSpace (httputil.dumpHead r (headerAt w1 redacted))).
  split; [done |]. split; [done |].
  specialize (H3 h). rewrite decide_True, Hv in H3 by done. simpl in H3.
  destruct (sensitiveHeaders_written h Hh) as (Hex & Hval).
  split.
  - intros ->. simpl in H3. split; [done |]. intros v' Hv'.
    apply (dump_line_occurs _ _ h ("" :: vs) v'); try done.
    by apply list_elem_of_further.
  - intros Hne. destruct (String.eqb_spec v "") as [-> | _]; [done |].
    split; [done |].
    destruct REDACTED_wire as [Hw Hl].
    rewrite <- Hw at 1.
    by apply (dump_line_occurs _ _ h [REDACTED] REDACTED);
      first [done | apply list_elem_of_here].
Qed.

Lemma dumpRequestSafe_first_value_decides_witness :
  "Cookie" ∈ sensitiveHeaders ∧
  headerAt twoCookiesWorld (Header exampleRequest) !! "Cookie"
    = Some [""; "session=abc"] ∧
  strings.Contains
    (dumpRequestSafe httputil.DumpRequest exampleRequest twoCookiesWorld).1
    "Cookie: session=abc" = true.
Proof.
  assert ("Cookie" ∈ sensitiveHeaders) as H1
    by (apply (bool_decide_unpack _); by vm_compute).
  split; [exact H1 |]. split; [reflexivity |].
  destruct (dumpRequestSafe_first_value_decides exampleRequest twoCookiesWorld
              "Cookie" "" ["session=abc"] H1 eq_refl)
    as (redacted & w1 & dump & _ & H2 & H3 & _).
  rewrite H2. destruct (H3 eq_refl) as [_ H4].
  apply (H4 "session=abc"); [apply list_elem_of_here | reflexivity].
Defined.

(** ** Header names as received *)

Lemma receivedHeaders_values lines (m : HeaderMap) k :
  default [] (foldl (fun h kv => MIMEHeader_Add h kv.1 kv.2) m lines !! k) =
  (default [] (m !! k) ++ valuesOf k lines)%list.
Proof.
  revert m. induction lines as [|[name v] lines IH]; intros m.
  - unfold valuesOf. simpl. by rewrite app_nil_r.
  - cbn [foldl]. rewrite IH. unfold MIMEHeader_Add, valuesOf. cbn [fst snd].
    rewrite filter_cons. cbn [fst].
    destruct (decide (textproto.CanonicalMIMEHeaderKey name = k)) as [<- | Hne].
    + rewrite lookup_insert_eq. cbn. by rewrite <- app_assoc.
    + by rewrite lookup_insert_ne.
Qed.

(** Whatever the case of the letters of a name on the wire, its values
    are stored under the canonical form of the name, in the order of
    the lines. *)
Lemma receivedHeaders_lookup lines k v vs :
  valuesOf k lines = v :: vs → receivedHeaders lines !! k = Some (v :: vs).
Proof.
  intros Hv. pose proof (receivedHeaders_values lines ∅ k) as H.
  rewrite lookup_empty, Hv in H. simpl in H. unfold receivedHeaders.
  by destruct (foldl _ ∅ lines !! k) as [l|]; simpl in H; subst.
Qed.

(** The redaction of a header received under another spelling of its
    name. *)
Lemma dumpRequestSafe_redacts_received :
  receivedHeaders lowerCaseLines !! "Authorization" = Some ["Bearer secret123"] ∧
  strings.Contains
    (dumpRequestSafe httputil.DumpRequest exampleRequest lowerCaseWorld).1
    "Authorization: ***REDACTED***" = true ∧
  strings.Contains
    (dumpRequestSafe httputil.DumpRequest exampleRequest lowerCaseWorld).1
    "secret123" = false.
Proof. by vm_compute. Qed.

(** * Further properties of the three functions *)

(** ** When the classifier panics *)



(** ** Letter case and wrapping *)

Lemma isASCII_app a b :
  strings.isASCII (a ++ b) = strings.isASCII a && strings.isASCII b.
Proof.
  induction a as [|ch a IH]; [done |]. rewrite append_cons. simpl.
  by rewrite IH, andb_assoc.
Qed.

(** *** [strings.Map] and [strings.ToLower] *)

Lemma mapFrom_cons f c s :
  strings.mapFrom f 0 (String c s) =
  utf8.EncodeRune (f (utf8.DecodeRuneInString (String c s)).1) ++
  strings.mapFrom f ((utf8.DecodeRuneInString (String c s)).2 - 1) s.
Proof. cbn [strings.mapFrom]. by destruct (utf8.DecodeRuneInString _). Qed.

Lemma mapFrom_skip f k c s :
  strings.mapFrom f (S k) (String c s) = strings.mapFrom f k s.
Proof. done. Qed.

(** Mapping goes through a place where a rune starts. *)
Lemma mapFrom_app f k a t :
  (k ≤ String.length a)%nat → startsRune t = true →
  strings.mapFrom f k (a ++ t) = strings.mapFrom f k a ++ strings.mapFrom f 0 t.
Proof.
  intros Hk Ht. revert k Hk. induction a as [|c a IH]; intros k Hk.
  - simpl in Hk. by replace k with 0%nat by lia.
  - destruct k as [|k].
    + rewrite mapFrom_cons. rewrite append_cons at 1. rewrite mapFrom_cons.
      rewrite <- append_cons, decode_app by done.
      destruct (utf8.DecodeRuneInString (String c a)) as [r w] eqn:E.
      apply decode_width in E as [_ Hw]; [| done]. cbn [fst snd]. simpl in Hw.
      rewrite IH by lia. by rewrite append_assoc.
    + rewrite append_cons, !mapFrom_skip. apply IH. simpl in Hk. lia.
Qed.

Lemma lower_RuneError :
  strings.isASCII (utf8.EncodeRune (unicode.ToLower utf8.RuneError)) = false ∧
  allHigh (utf8.EncodeRune (unicode.ToLower utf8.RuneError)) = true.
Proof. by vm_compute. Qed.

(** A text whose lower-case form is ASCII is valid UTF-8, so that its
    lower-case form does not depend on what follows. *)
Lemma lowerFrom_app_ascii k s b :
  (k ≤ String.length s)%nat →
  strings.isASCII (strings.mapFrom unicode.ToLower k s) = true →
  strings.mapFrom unicode.ToLower k (s ++ b) =
  strings.mapFrom unicode.ToLower k s ++ strings.mapFrom unicode.ToLower 0 b.
Proof.
  revert k. induction s as [|c s IH]; intros k Hk Hs.
  - simpl in Hk. by replace k with 0%nat by lia.
  - destruct k as [|k].
    + rewrite mapFrom_cons in Hs. rewrite append_cons at 1. rewrite mapFrom_cons.
      rewrite <- append_cons.
      destruct (utf8.DecodeRuneInString (String c s)) as [r w] eqn:E.
      cbn [fst snd] in Hs. rewrite isASCII_app in Hs.
      apply andb_true_iff in Hs as [Hr Hs].
      assert (String c s ≠ "") as Hne by done.
      pose proof (decode_width _ _ _ Hne E) as [Hw1 Hw2]. simpl in Hw2.
      rewrite (decode_keep _ b r w E).
      * rewrite mapFrom_cons, E. cbn [fst snd]. rewrite IH by (done || lia).
        by rewrite append_assoc.
      * intros [= -> ->]. destruct lower_RuneError as [F _]. congruence.
      * lia.
    + rewrite append_cons, !mapFrom_skip. rewrite mapFrom_skip in Hs.
      apply IH; [simpl in Hk; lia | done].
Qed.

Lemma lower_ascii_starts s :
  strings.isASCII (strings.mapFrom unicode.ToLower 0 s) = true → startsRune s = true.
Proof.
  destruct s as [|c s]; [done |]. intros H. unfold startsRune.
  destruct (utf8.cont (utf8.byte c)) eqn:E; [| done].
  rewrite mapFrom_cons, (decode_cont _ _ E) in H. cbn [fst snd] in H.
  rewrite isASCII_app in H. destruct lower_RuneError as [F _]. by rewrite F in H.
Qed.

Lemma lower_byte c :
  (utf8.byte c <? 128)%Z = true →
  utf8.EncodeRune (unicode.ToLower (utf8.byte c)) = String (strings.lowerByte c) "".
Proof. destruct c as [[] [] [] [] [] [] [] []]; by vm_compute. Qed.

(** The two branches of [strings.ToLower] agree on ASCII text. *)
Lemma ToLower_Map s : strings.ToLower s = strings.Map unicode.ToLower s.
Proof.
  unfold strings.ToLower, strings.Map.
  destruct (strings.isASCII s) eqn:E; [| done].
  induction s as [|c s IH]; [done |]. simpl in E.
  apply andb_true_iff in E as [Hc Hs].
  rewrite mapFrom_cons, (decode_ascii _ _ Hc). cbn [fst snd].
  rewrite (lower_byte _ Hc). simpl. rewrite <- IH by done. done.
Qed.

(** A phrase in any letter case is found in lower case, wherever it is
    in the text. *)
Lemma ToLower_phrase a s b :
  s ≠ "" →
  strings.isASCII (strings.ToLower s) = true →
  strings.ToLower (a ++ s ++ b) =
  strings.Map unicode.ToLower a ++ strings.ToLower s ++ strings.Map unicode.ToLower b.
Proof.
  intros Hne Hs. rewrite !ToLower_Map in *. unfold strings.Map in *.
  rewrite mapFrom_app; [| lia |].
  - rewrite lowerFrom_app_ascii.
    + reflexivity.
    + lia.
    + done.
  - apply lower_ascii_starts in Hs. by destruct s.
Qed.

Lemma stray_split s : s = strayBytes s ++ afterStray s.
Proof.
  induction s as [|c s IH]; [done |]. simpl.
  destruct (utf8.cont _); [| done]. by rewrite append_cons, <- IH.
Qed.

Lemma afterStray_starts s : startsRune (afterStray s) = true.
Proof.
  induction s as [|c s IH]; [done |]. simpl.
  destruct (utf8.cont _) eqn:E; [done |]. simpl. by rewrite E.
Qed.

Lemma allHigh_app a b : allHigh (a ++ b) = allHigh a && allHigh b.
Proof.
  induction a as [|ch a IH]; [done |]. rewrite append_cons. simpl.
  by rewrite IH, andb_assoc.
Qed.

Lemma lower_stray s : allHigh (strings.Map unicode.ToLower (strayBytes s)) = true.
Proof.
  unfold strings.Map. induction s as [|c s IH]; [done |]. simpl strayBytes.
  destruct (utf8.cont _) eqn:E; [| done].
  rewrite mapFrom_cons, (decode_cont _ _ E). cbn [fst snd Nat.sub].
  rewrite allHigh_app, IH. destruct lower_RuneError as [_ F]. by rewrite F.
Qed.

Lemma occurs_after_high x J T :
  allHigh J = true → strings.isASCII x = true → x ≠ "" →
  occurs x (J ++ T) → occurs x T.
Proof.
  intros HJ Hx Hne. induction J as [|c J IH]; [done |].
  simpl in HJ. apply andb_true_iff in HJ as [Hc HJ].
  intros (pre & post & H). rewrite append_cons in H.
  destruct pre as [|d pre].
  - destruct x as [|e x]; [done |]. rewrite append_nil_l, append_cons in H.
    injection H as -> _. simpl in Hx. apply andb_true_iff in Hx as [He _]. lia.
  - rewrite append_cons in H. injection H as _ H. apply IH; [done |].
    by exists pre, post.
Qed.

(** An ASCII phrase that the lower-case form of a message holds is held
    by the lower-case form of the message after any text. *)
Lemma ToLower_occurs_app x ctx m :
  strings.isASCII x = true → x ≠ "" →
  occurs x (strings.ToLower m) → occurs x (strings.ToLower (ctx ++ m)).
Proof.
  intros Hx Hne. rewrite !ToLower_Map. unfold strings.Map.
  rewrite (stray_split m) at 1.
  rewrite mapFrom_app by (lia || apply afterStray_starts).
  intros H. apply occurs_after_high in H; [| apply lower_stray | done | done].
  rewrite (stray_split m), <- append_assoc.
  rewrite mapFrom_app by (lia || apply afterStray_starts).
  by apply occurs_app_r.
Qed.

Lemma brokenPipeText_occurs s x :
  x = "broken pipe" ∨ x = "connection reset by peer" →
  occurs x s → brokenPipeText s = true.
Proof.
  intros Hx Hocc. apply Contains_spec in Hocc. unfold brokenPipeText.
  destruct Hx as [-> | ->]; rewrite Hocc; [done | apply orb_true_r].
Qed.

Lemma brokenPipeText_ToLower_app ctx m :
  brokenPipeText (strings.ToLower m) = true →
  brokenPipeText (strings.ToLower (ctx ++ m)) = true.
Proof.
  unfold brokenPipeText. rewrite !orb_true_iff, !Contains_spec.
  intros [H | H]; [left | right]; by apply ToLower_occurs_app.
Qed.

Lemma isBrokenPipe_phrase e a s b :
  errors_As e = None →
  Error e = Some (a ++ s ++ b) →
  strings.ToLower s = "broken pipe" ∨
  strings.ToLower s = "connection reset by peer" →
  isBrokenPipe (Some e) = Some true.
Proof.
  intros HAs Hm Hs. unfold isBrokenPipe. rewrite HAs, Hm. simpl. f_equal.
  rewrite ToLower_phrase.
  - apply (brokenPipeText_occurs _ (strings.ToLower s)); [done |].
    by eexists _, _.
  - intros ->. by destruct Hs.
  - by destruct Hs as [-> | ->].
Qed.

(** X2: on an error with no network error in its chain, the two texts
    are found in any letter case and anywhere in the message. *)
Theorem isBrokenPipe_any_case (e : error) (a s b : string) :
  errors_As e = None →
  Error e = Some (a ++ s ++ b) →
  strings.ToLower s = "broken pipe" ∨
  strings.ToLower s = "connection reset by peer" →
  isBrokenPipe (Some e) = Some true.
Proof. apply isBrokenPipe_phrase. Qed.

Lemma isBrokenPipe_any_case_witness :
  errors_As shoutedError = None ∧
  Error shoutedError =
    Some ("write tcp 10.0.0.1:2053: " ++ "BROKEN PIPE" ++ " (client went away)") ∧
  strings.ToLower "BROKEN PIPE" = "broken pipe" ∧
  isBrokenPipe (Some shoutedError) = Some true.
Proof.
  split; [reflexivity |]. split; [reflexivity |]. split; [reflexivity |].
  exact (isBrokenPipe_any_case shoutedError "write tcp 10.0.0.1:2053: "
           "BROKEN PIPE" " (client went away)" eq_refl eq_refl (or_introl eq_refl)).
Defined.

(** X3: an error that is classified as a broken pipe stays so when it
    is wrapped as [fmt.Errorf] with [%w] wraps it, with any text before
    its message. *)
Theorem isBrokenPipe_wrap_stable (e : error) (m ctx : string) :
  Error e = Some m →
  isBrokenPipe (Some e) = Some true →
  isBrokenPipe (Some (wrapError (ctx ++ m) e)) = Some true.
Proof.
  intros Hm. unfold isBrokenPipe.
  change (errors_As (wrapError (ctx ++ m) e)) with (errors_As e).
  change (Error (wrapError (ctx ++ m) e)) with (Some (ctx ++ m)).
  rewrite Hm.
  assert (Some (brokenPipeText (strings.ToLower m)) = Some true →
          Some (brokenPipeText (strings.ToLower (ctx ++ m))) = Some true) as Htop.
  { intros [= H]. f_equal. by apply brokenPipeText_ToLower_app. }
  destruct (errors_As e) as [[op net src addr [cause|] |]|]; simpl; auto.
Qed.

Lemma isBrokenPipe_wrap_stable_witness :
  Error writeBrokenPipe =
    Some "write tcp 10.0.0.1:2053->10.0.0.9:51544: write: broken pipe" ∧
  isBrokenPipe (Some writeBrokenPipe) = Some true ∧
  isBrokenPipe
    (Some (wrapError
             ("render failed: " ++
              "write tcp 10.0.0.1:2053->10.0.0.9:51544: write: broken pipe")
             writeBrokenPipe)) = Some true.
Proof.
  split; [reflexivity |]. split; [reflexivity |].
  exact (isBrokenPipe_wrap_stable writeBrokenPipe _ "render failed: " eq_refl eq_refl).
Defined.

(** ** The interceptor on a recovered fault *)

(** The state in which the interceptor ends on a recovered fault, with
    the library's dump. *)
Lemma RecoveryJSON_httputil Next w rec w1 brokenPipe :
  Next w = Panicked rec w1 →
  isBrokenPipe (Some (asError rec)) = Some brokenPipe →
  ∃ grow line,
    headerAt (set_headers grow w1) (Header (Request_ (c w1))) =
      headerAt w1 (Header (Request_ (c w1))) ∧
    RecoveryJSON httputil.DumpRequest Next w =
    Returned
      (let w3 := log_Printf panicFormat line (set_headers grow w1) in
       if brokenPipe then c_Abort (c_Error (asError rec) w3)
       else c_AbortWithStatusJSON StatusInternalServerError
              (errorBody (c_GetHeader "X-Request-ID" w3)) w3).
Proof.
  intros HN HB.
  destruct (dumpRequestSafe_httputil_frame (Request_ (c w1)) w1)
    as (redacted & grow & _ & HD & _ & _ & Hsame).
  exists grow. eexists. split; [exact Hsame |].
  by rewrite (RecoveryJSON_recovered _ _ _ _ _ _ _ _ HN HB HD).
Qed.



(** X5: a panic with a plain value, or an error without network error,
    whose text names a broken pipe or a reset connection, in any letter
    case, is handled as a dead connection: no response is written and
    the error is recorded. *)
Theorem RecoveryJSON_text_names_broken_pipe
    (Next : HandlerFunc) (w w1 : World) (rec : any) (a s b : string) :
  Next w = Panicked rec w1 →
  errors_As (asError rec) = None →
  Error (asError rec) = Some (a ++ s ++ b) →
  strings.ToLower s = "broken pipe" ∨
  strings.ToLower s = "connection reset by peer" →
  ∃ wf,
    RecoveryJSON httputil.DumpRequest Next w = Returned wf ∧
    Writer (c wf) = Writer (c w1) ∧
    Errors (c wf) =
      (Errors (c w1) ++ [{| gin_Err := asError rec; gin_Type := ErrorTypePrivate |}])%list.
Proof.
  intros HN HAs Hm Hs.
  pose proof (isBrokenPipe_phrase _ _ _ _ HAs Hm Hs) as HB.
  destruct (RecoveryJSON_httputil _ _ _ _ _ HN HB) as (grow & line & _ & ->).
  eexists. split; [reflexivity |]. split; reflexivity.
Qed.

Lemma RecoveryJSON_text_names_broken_pipe_witness :
  ∃ wf,
    RecoveryJSON httputil.DumpRequest
      (panicsWith (any_other "upstream said: Connection Reset By Peer")) exampleWorld
      = Returned wf ∧
    Writer (c wf) = {| w_status := 200; w_written := false; w_body := [] |} ∧
    Errors (c wf) =
      [{| gin_Err := errorString "upstream said: Connection Reset By Peer";
          gin_Type := ErrorTypePrivate |}].
Proof.
  exact (RecoveryJSON_text_names_broken_pipe
           (panicsWith (any_other "upstream said: Connection Reset By Peer"))
           exampleWorld _ (any_other "upstream said: Connection Reset By Peer")
           "upstream said: " "Connection Reset By Peer" ""
           eq_refl eq_refl eq_refl (or_intror eq_refl)).
Defined.

Lemma RecoveryJSON_false_writer Next w rec w1 :
  Next w = Panicked rec w1 →
  isBrokenPipe (Some (asError rec)) = Some false →
  Writer (c (world_of (RecoveryJSON httputil.DumpRequest Next w))) =
  {| w_status := if w_written (Writer (c w1)) then w_status (Writer (c w1)) else 500;
     w_written := true;
     w_body :=
       (w_body (Writer (c w1)) ++
        [errorBody
           (match headerAt w1 (Header (Request_ (c w1))) !! "X-Request-Id" with
            | Some (v :: _) => v
            | _ => ""
            end)])%list |}.
Proof.
  intros HN HB.
  destruct (RecoveryJSON_httputil _ _ _ _ _ HN HB) as (grow & line & Hsame & ->).
  cbv zeta. set (w3 := log_Printf _ _ _).
  assert (c_GetHeader "X-Request-ID" w3 =
          match headerAt w1 (Header (Request_ (c w1))) !! "X-Request-Id" with
          | Some (v :: _) => v
          | _ => ""
          end) as -> by (rewrite <- Hsame; reflexivity).
  cbn [world_of]. by rewrite c_AbortWithStatusJSON_writer.
Qed.

(** X6: the response says nothing of the fault.  For two faults that
    the classifier does not classify as broken pipes, the writer ends
    the same as soon as it was the same when the chains ended and the
    requests have the same X-Request-Id entry: the panic value, the
    stack, the clock and the other headers play no part. *)
Theorem RecoveryJSON_response_hides_fault
    (Next Next' : HandlerFunc) (w w' w1 w1' : World) (rec rec' : any) :
  Next w = Panicked rec w1 →
  Next' w' = Panicked rec' w1' →
  isBrokenPipe (Some (asError rec)) = Some false →
  isBrokenPipe (Some (asError rec')) = Some false →
  Writer (c w1) = Writer (c w1') →
  headerAt w1 (Header (Request_ (c w1))) !! "X-Request-Id" =
    headerAt w1' (Header (Request_ (c w1'))) !! "X-Request-Id" →
  Writer (c (world_of (RecoveryJSON httputil.DumpRequest Next w))) =
  Writer (c (world_of (RecoveryJSON httputil.DumpRequest Next' w'))).
Proof.
  intros HN HN' HB HB' HW HH.
  rewrite (RecoveryJSON_false_writer _ _ _ _ HN HB).
  rewrite (RecoveryJSON_false_writer _ _ _ _ HN' HB').
  by rewrite HW, HH.
Qed.

Lemma RecoveryJSON_response_hides_fault_witness :
  Writer (c (world_of (RecoveryJSON httputil.DumpRequest
                         (panicsWith (any_other "boom")) exampleWorld))) =
  Writer (c (world_of (RecoveryJSON httputil.DumpRequest
                         (panicsWith (any_error relayError)) exampleWorld))).
Proof.
  exact (RecoveryJSON_response_hides_fault
           (panicsWith (any_other "boom")) (panicsWith (any_error relayError))
           exampleWorld exampleWorld _ _ (any_other "boom") (any_error relayError)
           eq_refl eq_refl eq_refl eq_refl eq_refl eq_refl).
Defined.

(** X7: the interceptor only adds.  Whatever the chain did and however
    it ended, the log, the body of the response and the errors that the
    chain left are the beginning of what the interceptor leaves; it
    adds at most one log line, and at most one of an object in the body
    and a recorded error.  A header that the chain had sent stays sent,
    with its status. *)
Theorem RecoveryJSON_append_only (Next : HandlerFunc) (w : World) :
  logs (world_of (Next w)) `prefix_of`
    logs (world_of (RecoveryJSON httputil.DumpRequest Next w)) ∧
  w_body (Writer (c (world_of (Next w)))) `prefix_of`
    w_body (Writer (c (world_of (RecoveryJSON httputil.DumpRequest Next w)))) ∧
  Errors (c (world_of (Next w))) `prefix_of`
    Errors (c (world_of (RecoveryJSON httputil.DumpRequest Next w))) ∧
  (length (logs (world_of (RecoveryJSON httputil.DumpRequest Next w)))
     ≤ S (length (logs (world_of (Next w)))))%nat ∧
  (length (w_body (Writer (c (world_of (RecoveryJSON httputil.DumpRequest Next w))))) +
   length (Errors (c (world_of (RecoveryJSON httputil.DumpRequest Next w))))
     ≤ S (length (w_body (Writer (c (world_of (Next w))))) +
          length (Errors (c (world_of (Next w))))))%nat ∧
  (w_written (Writer (c (world_of (Next w)))) = true →
   w_written (Writer (c (world_of (RecoveryJSON httputil.DumpRequest Next w)))) = true ∧
   w_status (Writer (c (world_of (RecoveryJSON httputil.DumpRequest Next w)))) =
     w_status (Writer (c (world_of (Next w))))).
Proof.
  destruct (Next w) as [w1 | rec w1] eqn:HN.
  - unfold RecoveryJSON. rewrite HN. cbn. repeat split; try done; lia.
  - destruct (isBrokenPipe (Some (asError rec))) as [b|] eqn:HB.
    + destruct b.
      * destruct (RecoveryJSON_httputil _ _ _ _ _ HN HB) as (grow & line & _ & ->).
        cbn; rewrite ?length_app; cbn.
        repeat split; try done; try (by apply prefix_app_r); lia.
      * pose proof (RecoveryJSON_false_writer _ _ _ _ HN HB) as HW.
        destruct (RecoveryJSON_httputil _ _ _ _ _ HN HB) as (grow & line & _ & E).
        rewrite E in HW |- *. cbn [world_of] in HW |- *. rewrite HW.
        cbn; rewrite ?length_app; cbn.
        repeat split; try done; try (by apply prefix_app_r); try lia.
        by match goal with H : w_written _ = true |- _ => rewrite H end.
    + rewrite (RecoveryJSON_classifier_panics _ _ _ _ _ HN HB). cbn.
      repeat split; try done; lia.
Qed.


(** ** The dump *)

Lemma redact_dom (m : HeaderMap) : dom (redact m) = dom m.
Proof.
  apply set_eq. intros k. rewrite !elem_of_dom, redact_lookup.
  case_decide; [| done].
  destruct (m !! k) as [[|v vs]|]; simpl; try done.
  destruct (String.eqb v ""); split; intros _; by eexists.
Qed.

(** X9: the snapshot has the header names of the request, no more and
    no less, and a header that is not one of the six sensitive names
    (as spelled in the list) has its values as they were; for a name
    that the library writes, the dump prints each of them on a line of
    the header: the line is in the dump up to the white space at its
    end, and in full when the wire form of the value ends with an ASCII
    byte that is not white space. *)
Theorem dumpRequestSafe_keeps_other_headers
    (r : Request) (w : World) (k : string) :
  k ∉ sensitiveHeaders →
  ∃ redacted w1 dump,
    redactedHeaders r w = (redacted, w1) ∧
    dumpRequestSafe httputil.DumpRequest r w = (dump, w1) ∧
    dom (headerAt w1 redacted) = dom (headerAt w (Header r)) ∧
    headerAt w1 redacted !! k = headerAt w (Header r) !! k ∧
    ∀ vs v,
      headerAt w (Header r) !! k = Some vs → v ∈ vs →
      k ∉ httputil.reqWriteExcludeHeaderDump →
      httputil.ValidHeaderFieldName k = true →
      strings.Contains dump (strings.TrimRight (k ++ ": " ++ wireValue v)) = true ∧
      (lastPlain (wireValue v) = true →
       strings.Contains dump (k ++ ": " ++ wireValue v) = true).
Proof.
  intros Hk.
  destruct (redactedHeaders_spec r w) as (redacted & grow & H1 & H2 & _).
  exists redacted, (set_headers grow w),
    (strings.TrimSpace (httputil.dumpHead r (headerAt (set_headers grow w) redacted))).
  split; [done |]. split; [by apply dumpRequestSafe_httputil |].
  rewrite H2. split; [apply redact_dom |].
  assert (redact (headerAt w (Header r)) !! k = headerAt w (Header r) !! k) as Hsame
    by (by rewrite redact_lookup, decide_False).
  split; [done |]. intros vs v Hvs Hv Hex Hval.
  apply (dump_line_occurs _ _ k vs v); try done. by rewrite Hsame.
Qed.

Lemma dumpRequestSafe_keeps_other_headers_witness :
  ("X-Request-Id" ∉ sensitiveHeaders) ∧
  strings.Contains
    (dumpRequestSafe httputil.DumpRequest exampleRequest exampleWorld).1
    "X-Request-Id: req-42" = true.
Proof.
  assert ("X-Request-Id" ∉ sensitiveHeaders) as H1
    by (apply (bool_decide_unpack _); by vm_compute).
  split; [exact H1 |].
  destruct (dumpRequestSafe_keeps_other_headers exampleRequest exampleWorld
              "X-Request-Id" H1) as (redacted & w1 & dump & _ & H2 & _ & _ & H3).
  rewrite H2.
  apply (H3 ["req-42"] "req-42"); try reflexivity.
  - apply list_elem_of_here.
  - apply (bool_decide_unpack _). by vm_compute.
Defined.

(** X10: the dump can be taken again: a second call, in the state that
    the first one left, returns the same text. *)
Theorem dumpRequestSafe_repeatable (r : Request) (w : World) :
  (dumpRequestSafe httputil.DumpRequest r
     (dumpRequestSafe httputil.DumpRequest r w).2).1 =
  (dumpRequestSafe httputil.DumpRequest r w).1.
Proof.
  destruct (dumpRequestSafe_httputil_frame r w)
    as (redacted & grow & _ & HD & _ & _ & Hsame).
  rewrite HD. cbn [fst snd].
  destruct (dumpRequestSafe_httputil_frame r (set_headers grow w))
    as (redacted' & grow' & _ & HD' & _).
  rewrite HD'. cbn [fst]. by rewrite Hsame.
Qed.

Lemma dumpHead_has_proto req h : occurs "H" (httputil.dumpHead req h).
Proof.
  unfold httputil.dumpHead. cbv zeta.
  do 3 apply occurs_app_r. apply occurs_app_l. by exists " ", "TTP/".
Qed.

(** X11: the dump that the builder returns is never empty and neither
    begins nor ends with white space, whatever the request. *)
Theorem dumpRequestSafe_trimmed (r : Request) (w : World) :
  firstSolid (dumpRequestSafe httputil.DumpRequest r w).1 = true ∧
  lastSolid (dumpRequestSafe httputil.DumpRequest r w).1 = true.
Proof.
  destruct (dumpRequestSafe_httputil_frame r w) as (redacted & grow & _ & HD & _).
  rewrite HD. cbn [fst].
  set (head := httputil.dumpHead r _).
  destruct (TrimSpace_solid head) as [E | H]; [| done].
  assert (occurs "H" (strings.TrimSpace head)) as (pre & post & Hocc).
  { apply TrimSpace_occurs; [done | done | apply dumpHead_has_proto]. }
  rewrite E in Hocc. destruct pre; discriminate Hocc.
Qed.

Lemma redact_no_secret (m : HeaderMap) :
  (∀ h, h ∈ sensitiveHeaders → MIMEHeader_Get m h = "") → redact m = m.
Proof.
  intros Hno. apply map_eq. intros k. rewrite redact_lookup.
  case_decide as Hk; [| done].
  specialize (Hno k Hk). unfold MIMEHeader_Get in Hno.
  rewrite (sensitiveHeaders_canonical k Hk) in Hno.
  destruct (m !! k) as [[|v vs]|]; simpl; try done. by rewrite Hno.
Qed.

(** X12: on a request in which no sensitive header has a first value,
    the builder returns what the library's dump of the request itself,
    without its body, gives, trimmed. *)
Theorem dumpRequestSafe_no_secret (r : Request) (w : World) :
  (∀ h, h ∈ sensitiveHeaders →
        MIMEHeader_Get (headerAt w (Header r)) h = "") →
  (dumpRequestSafe httputil.DumpRequest r w).1 =
  strings.TrimSpace (httputil.DumpRequest r false w).1.1.
Proof.
  intros Hno.
  destruct (dumpRequestSafe_httputil_frame r w) as (redacted & grow & _ & HD & _).
  rewrite HD, DumpRequest_false. cbn [fst]. by rewrite redact_no_secret.
Qed.

Lemma dumpRequestSafe_no_secret_witness :
  (dumpRequestSafe httputil.DumpRequest exampleRequest twoCookiesWorld).1 =
  strings.TrimSpace (httputil.DumpRequest exampleRequest false twoCookiesWorld).1.1.
Proof.
  apply (dumpRequestSafe_no_secret exampleRequest twoCookiesWorld).
  intros h Hh. unfold sensitiveHeaders in Hh.
  repeat (apply elem_of_cons in Hh; destruct Hh as [Hh | Hh];
          [subst h; reflexivity |]).
  inversion Hh.
Defined.



(** X14: the body plays no part in the dump: with another body
    reference in the request and any other store of bodies, the text is
    the same, and the store of bodies is returned as it was given. *)
Theorem dumpRequestSafe_ignores_body
    (r : Request) (w : World) (b : option loc) (bs : gmap loc BodyStream) :
  (dumpRequestSafe httputil.DumpRequest (withBody r b)
     (set_bodies (fun _ => bs) w)).1 =
  (dumpRequestSafe httputil.DumpRequest r w).1 ∧
  bodies (dumpRequestSafe httputil.DumpRequest (withBody r b)
            (set_bodies (fun _ => bs) w)).2 = bs.
Proof.
  destruct (dumpRequestSafe_httputil_frame r w) as (redacted & grow & _ & HD & _).
  destruct (dumpRequestSafe_httputil_frame (withBody r b) (set_bodies (fun _ => bs) w))
    as (redacted' & grow' & _ & HD' & _).
  rewrite HD, HD'. split; reflexivity.
Qed.

(** ** The log line as a text *)

(** X15: on a recovered fault on which the classifier returns, the
    interceptor adds exactly one line to the log, and the text of the
    line is, between the fixed parts of the format: the time elapsed
    since the interceptor started, the method, the URL, the
    classification, the text of the error, the dump and the stack. *)
Theorem RecoveryJSON_log_text
    (Next : HandlerFunc) (w w1 : World) (rec : any) (brokenPipe : bool) :
  Next w = Panicked rec w1 →
  isBrokenPipe (Some (asError rec)) = Some brokenPipe →
  ∃ wf line,
    RecoveryJSON httputil.DumpRequest Next w = Returned wf ∧
    logs wf = (logs w1 ++ [line])%list ∧
    ∀ durationString : Z → string,
      Sprintf durationString (log_format line) (log_args line) =
      "[PANIC] " ++ durationString (clock w1 - clock w)%Z ++ " | " ++
      Method (Request_ (c w1)) ++ " " ++ URL_String (URL (Request_ (c w1))) ++
      " | brokenPipe=" ++ (if brokenPipe then "true" else "false") ++
      " | err=" ++ fmt_v (asError rec) ++ LF ++ "Request:" ++ LF ++
      (dumpRequestSafe httputil.DumpRequest (Request_ (c w1)) w1).1 ++ LF ++
      "Stack:" ++ LF ++ stack w1.
Proof.
  intros HN HB.
  destruct (RecoveryJSON_log_line _ _ _ _ _ HN HB) as (wf & H1 & H2).
  exists wf. eexists. split; [exact H1 |]. split; [exact H2 |].
  intros durationString. apply panicLine_text.
Qed.

Lemma RecoveryJSON_log_text_witness :
  ∃ wf line,
    RecoveryJSON httputil.DumpRequest (panicsWith (any_other "boom")) exampleWorld
      = Returned wf ∧
    logs wf = [line] ∧
    strings.HasPrefix (Sprintf (fun _ => "250ns") (log_format line) (log_args line))
      "[PANIC] 250ns | GET /panel/api/inbounds/list | brokenPipe=false | err=boom"
      = true.
Proof.
  destruct (RecoveryJSON_log_text (panicsWith (any_other "boom")) exampleWorld _
              (any_other "boom") false eq_refl eq_refl) as (wf & line & H1 & H2 & H3).
  exists wf, line. split; [exact H1 |]. split; [exact H2 |].
  rewrite H3. reflexivity.
Defined.
